(** * Electric-vehicle dashboard: the filtering / aggregation core

    A shallow embedding of the pure computations of the [Dashboard]
    component (the only file of the repository with logic) and the
    properties stated about them.

    Modelling conventions.

    - A JavaScript number is a [number]: NaN, the two infinities, or a
      finite value.  Finite values are exact rationals ([Qc], rationals in
      lowest terms, so that Leibniz equality is numeric equality); the
      rounding of IEEE doubles and the sign of zero are not modelled.
    - A CSV cell is a [cell]: PapaParse with [dynamicTyping] delivers an
      empty cell as [null] and leaves the key of a short row out
      ([undefined]); otherwise the cell holds a value of the type the
      [Data] interface declares for its column.
    - A plain object used as a dictionary is a property list in the order
      [Object.entries] / [Object.values] enumerate it: array-index keys
      first, ascending, then the other keys in insertion order.  A read of
      a key the object does not own finds the members of
      [Object.prototype].
    - [Array.prototype.sort] is stable; for a consistent comparator its
      result is the one a stable insertion sort gives.  For a comparator
      that is not consistent the order is left to the engine: statements
      about a sorted order are made where the comparator is consistent. *)

From Stdlib Require Import ZArith QArith Qcanon List String Ascii Bool Lia.
From Stdlib Require Import Sorted Permutation.
Import ListNotations.

Set Implicit Arguments.

Local Open Scope nat_scope.
Local Open Scope list_scope.

(* ================================================================= *)
(** ** JavaScript values *)

Module JS.

(** *** Numbers *)

Inductive number : Type :=
| NaN
| PosInf
| NegInf
| Fin (q : Qc).

Definition of_Z (z : Z) : number := Fin (Q2Qc (inject_Z z)).
Definition of_nat (n : nat) : number := of_Z (Z.of_nat n).

Definition zero : number := of_Z 0.

Definition Qc_ltb (x y : Qc) : bool :=
  match (x ?= y)%Qc with Lt => true | _ => false end.

(** [ToBoolean]: NaN and 0 are falsy, every other number is truthy. *)
Definition truthy (n : number) : bool :=
  match n with
  | NaN => false
  | Fin q => negb (Qc_eq_bool q (Q2Qc 0))
  | PosInf | NegInf => true
  end.

(** [a + b] on numbers. *)
Definition add (a b : number) : number :=
  match a, b with
  | NaN, _ | _, NaN => NaN
  | PosInf, NegInf | NegInf, PosInf => NaN
  | PosInf, _ | _, PosInf => PosInf
  | NegInf, _ | _, NegInf => NegInf
  | Fin x, Fin y => Fin (x + y)%Qc
  end.

Definition neg (a : number) : number :=
  match a with
  | NaN => NaN
  | PosInf => NegInf
  | NegInf => PosInf
  | Fin x => Fin (- x)%Qc
  end.

(** [a - b] on numbers. *)
Definition sub (a b : number) : number := add a (neg b).

(** [a / b] on numbers; a finite value over zero is NaN for 0/0 and an
    infinity otherwise. *)
Definition div (a b : number) : number :=
  match a, b with
  | NaN, _ | _, NaN => NaN
  | (PosInf | NegInf), (PosInf | NegInf) => NaN
  | Fin _, (PosInf | NegInf) => zero
  | PosInf, Fin y => if Qc_ltb y (Q2Qc 0) then NegInf else PosInf
  | NegInf, Fin y => if Qc_ltb y (Q2Qc 0) then PosInf else NegInf
  | Fin x, Fin y =>
      if Qc_eq_bool y (Q2Qc 0) then
        if Qc_eq_bool x (Q2Qc 0) then NaN
        else if Qc_ltb x (Q2Qc 0) then NegInf else PosInf
      else Fin (x / y)%Qc
  end.

(** [a === b] on numbers: NaN equals nothing. *)
Definition number_eqb (a b : number) : bool :=
  match a, b with
  | PosInf, PosInf | NegInf, NegInf => true
  | Fin x, Fin y => Qc_eq_bool x y
  | _, _ => false
  end.

(** SameValueZero on numbers, the equality of [Set] (and of property keys
    obtained from numbers): as [===], but NaN equals NaN. *)
Definition number_same (a b : number) : bool :=
  match a, b with
  | NaN, NaN => true
  | _, _ => number_eqb a b
  end.

(** The sign a comparator result has for [sort]: NaN counts as 0. *)
Definition positive (a : number) : bool :=
  match a with
  | PosInf => true
  | Fin q => Qc_ltb (Q2Qc 0) q
  | NaN | NegInf => false
  end.

(** *** Cells: a value that may be missing *)

Inductive cell (A : Type) : Type :=
| Undefined
| Null
| Val (a : A).

Arguments Undefined {A}.
Arguments Null {A}.

(** [isNaN(c)] on a numeric cell: [ToNumber(undefined)] is NaN,
    [ToNumber(null)] is 0. *)
Definition isNaN (c : cell number) : bool :=
  match c with
  | Undefined => true
  | Null => false
  | Val NaN => true
  | Val _ => false
  end.

(** [ToNumber] on a numeric cell. *)
Definition to_number (c : cell number) : number :=
  match c with
  | Undefined => NaN
  | Null => zero
  | Val n => n
  end.

(** [c || 0] on a numeric cell. *)
Definition or_zero (c : cell number) : number :=
  match c with
  | Val n => if truthy n then n else zero
  | Undefined | Null => zero
  end.

(** [c || d] on a string cell, [d] a string. *)
Definition or_string (c : cell string) (d : string) : string :=
  match c with
  | Val s => if String.eqb s EmptyString then d else s
  | Undefined | Null => d
  end.

(** [c === n] for a numeric cell and a number. *)
Definition cell_number_eqb (c : cell number) (n : number) : bool :=
  match c with
  | Val m => number_eqb m n
  | Undefined | Null => false
  end.

(** [c === s] for a string cell and a string (code-unit equality). *)
Definition cell_string_eqb (c : cell string) (s : string) : bool :=
  match c with
  | Val t => String.eqb t s
  | Undefined | Null => false
  end.

(** SameValueZero on cells. *)
Definition cell_same {A} (same : A -> A -> bool) (c d : cell A) : bool :=
  match c, d with
  | Undefined, Undefined => true
  | Null, Null => true
  | Val a, Val b => same a b
  | _, _ => false
  end.

(** *** Arrays *)

(** [arr.slice(start, end)] with integer arguments: a negative index counts
    from the end, and both are clamped to the array. *)
Definition slice {A} (arr : list A) (start_ end_ : Z) : list A :=
  let len := Z.of_nat (List.length arr) in
  let k := if (start_ <? 0)%Z then Z.max (len + start_) 0 else Z.min start_ len in
  let final := if (end_ <? 0)%Z then Z.max (len + end_) 0 else Z.min end_ len in
  firstn (Z.to_nat (final - k)) (skipn (Z.to_nat k) arr).

(** [Array.from(new Set(arr))]: the values in first-insertion order. *)
Definition set_add {A} (same : A -> A -> bool) (s : list A) (x : A) : list A :=
  if existsb (same x) s then s else s ++ [x].

Definition Array_from_Set {A} (same : A -> A -> bool) (arr : list A) : list A :=
  fold_left (set_add same) arr [].

(** [arr.sort(cmp)]: stable; [x] goes after [y] only when [cmp x y > 0]. *)
Fixpoint sort_insert {A} (cmp : A -> A -> number) (x : A) (l : list A) : list A :=
  match l with
  | [] => [x]
  | y :: l' => if positive (cmp x y) then y :: sort_insert cmp x l' else x :: l
  end.

Definition sort {A} (cmp : A -> A -> number) (arr : list A) : list A :=
  fold_right (sort_insert cmp) [] arr.

(** [Math.ceil(a / b)] for integers [a] and [b > 0]. *)
Definition Math_ceil_div (a b : Z) : Z := (- ((- a) / b))%Z.

End JS.

(* ================================================================= *)
(** ** Plain objects used as dictionaries *)

Module Obj.

Section PropertyList.
Variables K V : Type.
(** Two keys name the same property. *)
Variable key_eqb : K -> K -> bool.
(** The array index a key denotes, if it is one. *)
Variable array_index : K -> option N.

(** The own properties, in enumeration order. *)
Definition t : Type := list (K * V).

Definition empty : t := [].

(** [o[k]]; [None] stands for [undefined]. *)
Fixpoint get (o : t) (k : K) : option V :=
  match o with
  | [] => None
  | (k', v') :: o' => if key_eqb k k' then Some v' else get o' k
  end.

(** Assignment to a property the object has: its position is kept. *)
Fixpoint replace (o : t) (k : K) (v : V) : t :=
  match o with
  | [] => []
  | (k', v') :: o' =>
      if key_eqb k k' then (k', v) :: o' else (k', v') :: replace o' k v
  end.

(** A new array-index key goes among the index keys, ascending. *)
Fixpoint insert_index (i : N) (k : K) (v : V) (o : t) : t :=
  match o with
  | [] => [(k, v)]
  | (k', v') :: o' =>
      match array_index k' with
      | Some j =>
          if (j <? i)%N then (k', v') :: insert_index i k v o'
          else (k, v) :: o
      | None => (k, v) :: o
      end
  end.

(** A new key: index keys by value, the others at the end. *)
Definition define (o : t) (k : K) (v : V) : t :=
  match array_index k with
  | Some i => insert_index i k v o
  | None => o ++ [(k, v)]
  end.

(** [o[k] = v]. *)
Definition set (o : t) (k : K) (v : V) : t :=
  match get o k with
  | Some _ => replace o k v
  | None => define o k v
  end.

(** [Object.entries(o)], [Object.keys(o)], [Object.values(o)]. *)
Definition entries (o : t) : list (K * V) := o.
Definition keys (o : t) : list K := map fst o.
Definition values (o : t) : list V := map snd o.
End PropertyList.

(** *** Keys that are strings *)

Definition digit_of (c : ascii) : option N :=
  let n := N_of_ascii c in
  if ((48 <=? n) && (n <=? 57))%N then Some (n - 48)%N else None.

Fixpoint digits_value (s : string) (acc : N) : option N :=
  match s with
  | EmptyString => Some acc
  | String c s' =>
      match digit_of c with
      | Some d => digits_value s' (10 * acc + d)%N
      | None => None
      end
  end.

(** A string is an array index when it is the canonical decimal form of an
    integer from 0 to 2^32 - 2. *)
Definition string_index (s : string) : option N :=
  match s with
  | EmptyString => None
  | String c rest =>
      if Ascii.eqb c "0"%char then
        match rest with EmptyString => Some 0%N | _ => None end
      else
        match digits_value s 0 with
        | Some n => if (n <=? 4294967294)%N then Some n else None
        | None => None
        end
  end.

(** *** What a plain object inherits

    The prototype of [{}] is [Object.prototype]: a read [o[k]] of a key
    that [o] does not own finds the member of that name, if there is one. *)

(** The methods of [Object.prototype]. *)
Definition prototype_methods : list string :=
  ["constructor"; "hasOwnProperty"; "isPrototypeOf"; "propertyIsEnumerable";
   "toLocaleString"; "toString"; "valueOf"; "__defineGetter__";
   "__defineSetter__"; "__lookupGetter__"; "__lookupSetter__"]%string.

Inductive inherited : Type :=
| Method (name : string)   (* a built-in function, with its name *)
| ProtoAccessor.           (* the getter and setter [__proto__] *)

Definition Object_prototype (k : string) : option inherited :=
  if String.eqb k "__proto__" then Some ProtoAccessor
  else if existsb (String.eqb k) prototype_methods then
    Some (Method (if String.eqb k "constructor" then "Object" else k))
  else None.

(** [String(f)] for a built-in function [f]; the text around the name is
    the engine's (here V8's), it starts with "function" in every engine. *)
Definition native_source (name : string) : string :=
  ("function " ++ name ++ "() { [native code] }")%string.

(** *** Keys that come from a numeric cell

    [o[c]] uses the key [String(c)]; that conversion is injective on cells
    up to SameValueZero, so the cell itself serves as the key. *)

Definition cell_key_eqb : JS.cell JS.number -> JS.cell JS.number -> bool :=
  JS.cell_same JS.number_same.

Definition cell_index (c : JS.cell JS.number) : option N :=
  match c with
  | JS.Val (JS.Fin q) =>
      let n := Qnum (this q) in
      if (Pos.eqb (Qden (this q)) 1 && (0 <=? n)%Z && (n <=? 4294967294)%Z)%bool
      then Some (Z.to_N n) else None
  | _ => None
  end.

End Obj.

(* ================================================================= *)
(** ** The dashboard *)

Module Dashboard.
Import JS.

(** The [Data] interface: one parsed row of the CSV file. *)
Record Data : Type := mkData {
  VIN : cell string;                  (* "VIN (1-10)" *)
  County : cell string;
  City : cell string;
  State : cell string;
  PostalCode : cell number;           (* "Postal Code" *)
  ModelYear : cell number;            (* "Model Year" *)
  Make : cell string;
  Model : cell string;
  ElectricVehicleType : cell string;  (* "Electric Vehicle Type" *)
  CAFVEligibility : cell string;
  ElectricRange : cell number;        (* "Electric Range" *)
  BaseMSRP : cell number;             (* "Base MSRP" *)
  LegislativeDistrict : cell number;
  DOLVehicleID : cell number;
  VehicleLocation : cell string;
  ElectricUtility : cell string;
  CensusTract : cell number           (* "2020 Census Tract" *)
}.

Definition ITEMS_PER_PAGE : Z := 10.

(** The component state: [useState] cells. *)
Record ComponentState : Type := mkState {
  data : list Data;
  currentPage : Z;
  selectedYear : option number;       (* number | null *)
  selectedMake : option string        (* string | null *)
}.

(** [selectedYear ? item["Model Year"] === selectedYear : true]: the
    condition is the truthiness of the state cell ([null] is falsy). *)
Definition year_test (y : option number) (item : Data) : bool :=
  match y with
  | Some n => if truthy n then cell_number_eqb (ModelYear item) n else true
  | None => true
  end.

(** [selectedMake ? item.Make === selectedMake : true]: the empty string is
    falsy. *)
Definition make_test (m : option string) (item : Data) : bool :=
  match m with
  | Some s =>
      if negb (String.eqb s EmptyString) then cell_string_eqb (Make item) s
      else true
  | None => true
  end.

Definition filteredData (data : list Data) (selectedYear : option number)
    (selectedMake : option string) : list Data :=
  filter (fun item => year_test selectedYear item && make_test selectedMake item)
         data.

(** *** Summary statistics *)

Definition totalVehicles (filteredData : list Data) : nat :=
  List.length filteredData.

Definition uniqueMakes (filteredData : list Data) : nat :=
  List.length (Array_from_Set (cell_same String.eqb) (map Make filteredData)).

Definition averageRange (filteredData : list Data) : number :=
  div (fold_left (fun sum item => add sum (or_zero (ElectricRange item)))
                 filteredData zero)
      (of_nat (totalVehicles filteredData)).

(** *** Distributions *)

(** What a property of a counting object holds: a count, or a text once
    [+ 1] was applied to something that is not a number. *)
Inductive tally : Type :=
| Count (n : nat)
| Text (s : string).

Definition counts : Type := Obj.t string tally.

(** [acc[k] = (acc[k] ?? 0) + 1] on an object that started as [{}].
    - An own count is incremented; an own text gets "1" appended.
    - A key that is neither owned nor inherited reads [undefined]: the
      count starts at [0 + 1].
    - An inherited method is not nullish: [f + 1] is the text of [f]
      followed by "1", and the assignment creates an own property.
    - [__proto__] reads the prototype, an object; the setter ignores the
      text assigned to it, and no property is created. *)
Definition bump (acc : counts) (k : string) : counts :=
  match Obj.get String.eqb acc k with
  | Some (Count c) => Obj.set String.eqb Obj.string_index acc k (Count (c + 1))
  | Some (Text s) => Obj.set String.eqb Obj.string_index acc k (Text (s ++ "1"))
  | None =>
      match Obj.Object_prototype k with
      | None => Obj.set String.eqb Obj.string_index acc k (Count (0 + 1))
      | Some (Obj.Method f) =>
          Obj.set String.eqb Obj.string_index acc k
            (Text (Obj.native_source f ++ "1"))
      | Some Obj.ProtoAccessor => acc
      end
  end.

(** [ToNumber] of what a bucket holds.  The text of a bucket starts with
    "function", which is no numeric literal. *)
Definition tally_number (v : tally) : number :=
  match v with
  | Count n => of_nat n
  | Text _ => NaN
  end.

Definition type_key (item : Data) : string :=
  or_string (ElectricVehicleType item) "Unknown".

Definition make_key (item : Data) : string :=
  or_string (Make item) "Unknown".

Definition vehicleTypes (filteredData : list Data) : counts :=
  fold_left (fun acc item => bump acc (type_key item)) filteredData (Obj.empty _ _).

Definition vehicleTypesData (filteredData : list Data) : list (string * tally) :=
  map (fun e => (fst e, snd e)) (Obj.entries (vehicleTypes filteredData)).

Definition makeDistribution (filteredData : list Data) : counts :=
  fold_left (fun acc item => bump acc (make_key item)) filteredData (Obj.empty _ _).

(** The comparator [(a, b) => b[1] - a[1]]. *)
Definition by_count_desc (a b : string * tally) : number :=
  sub (tally_number (snd b)) (tally_number (snd a)).

(** The pipeline of [makeDistributionData] with the length [n] of the cut
    as a parameter. *)
Definition topN (n : nat) (filteredData : list Data) : list (string * tally) :=
  map (fun e => (fst e, snd e))
      (slice (sort by_count_desc (Obj.entries (makeDistribution filteredData)))
             0 (Z.of_nat n)).

Definition makeDistributionData (filteredData : list Data) : list (string * tally) :=
  topN 5 filteredData.

(** *** Average range by model year *)

Record YearAcc : Type := mkYearAcc {
  acc_year : cell number;
  acc_averageRange : number;
  acc_count : nat
}.

Definition year_accs : Type := Obj.t (cell number) YearAcc.

Definition rangeByYear_step (acc : year_accs) (item : Data) : year_accs :=
  let year := ModelYear item in
  let range := ElectricRange item in
  if negb (isNaN year) && negb (isNaN range) then
    let acc1 :=
      match Obj.get Obj.cell_key_eqb acc year with
      | Some _ => acc
      | None => Obj.set Obj.cell_key_eqb Obj.cell_index acc year
                  (mkYearAcc year zero 0)
      end in
    match Obj.get Obj.cell_key_eqb acc1 year with
    | Some e =>
        Obj.set Obj.cell_key_eqb Obj.cell_index acc1 year
          (mkYearAcc (acc_year e)
                     (add (acc_averageRange e) (to_number range))
                     (acc_count e + 1))
    | None => acc1
    end
  else acc.

Definition rangeByYear (filteredData : list Data) : year_accs :=
  fold_left rangeByYear_step filteredData (Obj.empty _ _).

Record YearPoint : Type := mkYearPoint {
  year : cell number;
  pt_averageRange : number
}.

Definition by_year_asc (a b : YearPoint) : number :=
  sub (to_number (year a)) (to_number (year b)).

Definition rangeByYearData (filteredData : list Data) : list YearPoint :=
  sort by_year_asc
    (map (fun e => mkYearPoint (acc_year e)
                     (div (acc_averageRange e) (of_nat (acc_count e))))
         (Obj.values (rangeByYear filteredData))).

(** *** Pagination *)

(** The slice of the table, with the page size as a parameter. *)
Definition paginate (view : list Data) (pageNumber pageSize : Z) : list Data :=
  slice view ((pageNumber - 1) * pageSize) (pageNumber * pageSize).

Definition paginatedData (filteredData : list Data) (currentPage : Z) : list Data :=
  paginate filteredData currentPage ITEMS_PER_PAGE.

Definition lastPage (totalVehicles : nat) : Z :=
  Math_ceil_div (Z.of_nat totalVehicles) ITEMS_PER_PAGE.

(** The updaters passed to [setCurrentPage] by the two buttons. *)
Definition previousPage (prev : Z) : Z := Z.max (prev - 1) 1.

Definition nextPage (totalVehicles : nat) (prev : Z) : Z :=
  Z.min (prev + 1) (lastPage totalVehicles).

(** The [disabled] attribute of the two buttons. *)
Definition previousDisabled (currentPage : Z) : bool := (currentPage =? 1)%Z.

Definition nextDisabled (totalVehicles : nat) (currentPage : Z) : bool :=
  (currentPage =? lastPage totalVehicles)%Z.

(** A click on an enabled button, for a view of [totalVehicles] rows. *)
Inductive click (totalVehicles : nat) : Z -> Z -> Prop :=
| click_previous : forall p,
    previousDisabled p = false ->
    click totalVehicles p (previousPage p)
| click_next : forall p,
    nextDisabled totalVehicles p = false ->
    click totalVehicles p (nextPage totalVehicles p).

(** The pages reached from the initial [useState(1)] by clicks alone, on a
    view that keeps its [totalVehicles] rows. *)
Inductive reachable (totalVehicles : nat) : Z -> Prop :=
| reach_init : reachable totalVehicles 1
| reach_click : forall p p',
    reachable totalVehicles p -> click totalVehicles p p' ->
    reachable totalVehicles p'.

(** The two numbers of the caption "Showing a - b of n vehicles". *)
Definition showingFrom (currentPage : Z) : Z :=
  (currentPage - 1) * ITEMS_PER_PAGE + 1.

Definition showingTo (totalVehicles : nat) (currentPage : Z) : Z :=
  Z.min (currentPage * ITEMS_PER_PAGE) (Z.of_nat totalVehicles).

(** *** Filter options *)

Definition uniqueYears (data : list Data) : list (cell number) :=
  Array_from_Set (cell_same number_same) (map ModelYear data).

Definition uniqueMakesList (data : list Data) : list (cell string) :=
  Array_from_Set (cell_same String.eqb) (map Make data).

(** *** One render: everything derived from the state *)

(** The rows a state shows. *)
Definition shown (st : ComponentState) : list Data :=
  filteredData (data st) (selectedYear st) (selectedMake st).

(** The states of the component over time.  It starts with an empty store,
    page 1 and no selection; the effect run on mount stores the parsed rows
    once ([setData], nothing else changes); the two selects set a year or a
    make ([setSelectedYear], [setSelectedMake], the page is kept); the two
    buttons, when enabled, apply their updaters to the page.  The flag says
    whether the rows have arrived. *)
Inductive app_reachable : bool -> ComponentState -> Prop :=
| app_init : app_reachable false (mkState [] 1 None None)
| app_loaded : forall st rows,
    app_reachable false st ->
    app_reachable true
      (mkState rows (currentPage st) (selectedYear st) (selectedMake st))
| app_year : forall b st y,
    app_reachable b st ->
    app_reachable b (mkState (data st) (currentPage st) y (selectedMake st))
| app_make : forall b st m,
    app_reachable b st ->
    app_reachable b (mkState (data st) (currentPage st) (selectedYear st) m)
| app_previous : forall b st,
    app_reachable b st ->
    previousDisabled (currentPage st) = false ->
    app_reachable b
      (mkState (data st) (previousPage (currentPage st))
               (selectedYear st) (selectedMake st))
| app_next : forall b st,
    app_reachable b st ->
    nextDisabled (totalVehicles (shown st)) (currentPage st) = false ->
    app_reachable b
      (mkState (data st)
               (nextPage (totalVehicles (shown st)) (currentPage st))
               (selectedYear st) (selectedMake st)).

Record Rendered : Type := mkRendered {
  r_filteredData : list Data;
  r_totalVehicles : nat;
  r_uniqueMakes : nat;
  r_averageRange : number;
  r_vehicleTypesData : list (string * tally);
  r_makeDistributionData : list (string * tally);
  r_rangeByYearData : list YearPoint;
  r_paginatedData : list Data;
  r_uniqueYears : list (cell number);
  r_uniqueMakesList : list (cell string)
}.

Definition render (st : ComponentState) : Rendered :=
  let filteredData := filteredData (data st) (selectedYear st) (selectedMake st) in
  mkRendered
    filteredData
    (totalVehicles filteredData)
    (uniqueMakes filteredData)
    (averageRange filteredData)
    (vehicleTypesData filteredData)
    (makeDistributionData filteredData)
    (rangeByYearData filteredData)
    (paginatedData filteredData (currentPage st))
    (uniqueYears (data st))
    (uniqueMakesList (data st)).

(** *** Sample rows *)

Definition row (make : cell string) (year range : cell number)
    (type : cell string) : Data :=
  mkData Null Null Null Null Null year make Null type Null range Null Null
         Null Null Null Null.

End Dashboard.

(* ================================================================= *)
(** ** Notions the stated properties are phrased with *)

Module Spec.
Import JS Dashboard.

(** [Subseq l1 l2]: [l1] is [l2] with some elements left out, the others in
    their order. *)
Inductive Subseq {A : Type} : list A -> list A -> Prop :=
| Subseq_nil : Subseq [] []
| Subseq_skip : forall x l1 l2, Subseq l1 l2 -> Subseq l1 (x :: l2)
| Subseq_keep : forall x l1 l2, Subseq l1 l2 -> Subseq (x :: l1) (x :: l2).

(** A selection in which every constraint that is not [null] counts as
    set: the rule of inclusion read literally. *)
Definition matches_every_given (y : option number) (m : option string)
    (item : Data) : Prop :=
  (forall n, y = Some n -> ModelYear item = Val n) /\
  (forall s, m = Some s -> Make item = Val s).

(** The rule of inclusion with the constraints the filter acts on: a year
    other than 0 and NaN, a make other than the empty string. *)
Definition matches_every_set (y : option number) (m : option string)
    (item : Data) : Prop :=
  (forall n, y = Some n -> truthy n = true -> ModelYear item = Val n) /\
  (forall s, m = Some s -> s <> EmptyString -> Make item = Val s).

(** The electric ranges that are present and valid numbers, in view order. *)
Definition valid_ranges (view : list Data) : list number :=
  flat_map (fun item =>
              match ElectricRange item with
              | Val NaN => []
              | Val n => [n]
              | Undefined | Null => []
              end) view.

Definition sum_numbers (l : list number) : number := fold_left add l zero.

(** The number of records of the view that fall into bucket [name]. *)
Definition bucket_size (key : Data -> string) (view : list Data)
    (name : string) : nat :=
  count_occ string_dec (map key view) name.

(** The number of distinct buckets of the view. *)
Definition bucket_count (key : Data -> string) (view : list Data) : nat :=
  List.length (nodup string_dec (map key view)).

(** The count a bucket holds (a bucket that holds a text has none). *)
Definition count_of (v : tally) : nat :=
  match v with
  | Count n => n
  | Text _ => 0
  end.

(** The sum of the counts of all buckets. *)
Definition total (o : list (string * tally)) : nat :=
  list_sum (map (fun e => count_of (snd e)) o).

(** A name that no member of [Object.prototype] has. *)
Definition ordinary (k : string) : Prop := Obj.Object_prototype k = None.

(** A name that no method of [Object.prototype] has ([__proto__] is the
    name of an accessor, not of a method). *)
Definition no_method (k : string) : Prop :=
  existsb (String.eqb k) Obj.prototype_methods = false.

(** The order of counts; a text is not a count. *)
Definition tally_le (a b : tally) : Prop :=
  match a, b with
  | Count m, Count n => m <= n
  | _, _ => False
  end.

Definition tally_lt (a b : tally) : Prop :=
  match a, b with
  | Count m, Count n => m < n
  | _, _ => False
  end.

(** A record with no usable value in a string column. *)
Definition blank (c : cell string) : Prop :=
  c = Undefined \/ c = Null \/ c = Val EmptyString.

(** [Before l x y]: some occurrence of [x] in [l] has an occurrence of [y]
    after it. *)
Inductive Before {A : Type} : list A -> A -> A -> Prop :=
| Before_here : forall x y l, In y l -> Before (x :: l) x y
| Before_later : forall z x y l, Before l x y -> Before (z :: l) x y.

(** The position at which [k] is first met in [l] ([length l] if never). *)
Fixpoint index_of (k : string) (l : list string) : nat :=
  match l with
  | [] => 0
  | x :: l' => if String.eqb k x then 0 else S (index_of k l')
  end.

(** Counts never increase along the sequence / always decrease. *)
Definition descending (l : list (string * tally)) : Prop :=
  StronglySorted (fun a b => tally_le (snd b) (snd a)) l.

Definition strictly_descending (l : list (string * tally)) : Prop :=
  StronglySorted (fun a b => tally_lt (snd b) (snd a)) l.

(** What [acc[k]] holds as an own property after
    [acc[k] = (acc[k] ?? 0) + 1], from what it held before. *)
Definition bumped (own : option tally) (k : string) : option tally :=
  match own with
  | Some (Count c) => Some (Count (c + 1))
  | Some (Text s) => Some (Text (s ++ "1"))
  | None =>
      match Obj.Object_prototype k with
      | None => Some (Count (0 + 1))
      | Some (Obj.Method f) => Some (Text (Obj.native_source f ++ "1"))
      | Some Obj.ProtoAccessor => None
      end
  end.

(** [c] times the character 1. *)
Fixpoint ones (c : nat) : string :=
  match c with
  | 0 => EmptyString
  | S c' => (ones c' ++ "1")%string
  end.

(** The own property of name [k] after [c] records of that name. *)
Definition bucket_value (k : string) (c : nat) : option tally :=
  match c with
  | 0 => None
  | S _ =>
      match Obj.Object_prototype k with
      | None => Some (Count c)
      | Some (Obj.Method f) => Some (Text (Obj.native_source f ++ ones c))
      | Some Obj.ProtoAccessor => None
      end
  end.

(** The keys of an object that are not array indices, in enumeration
    order. *)
Definition string_keys {V : Type} (o : Obj.t string V) : list string :=
  filter (fun k => match Obj.string_index k with None => true | Some _ => false end)
         (Obj.keys o).

(** The order of the numbers other than NaN. *)
Definition number_le (a b : number) : Prop :=
  match a, b with
  | NaN, _ | _, NaN => False
  | NegInf, _ => True
  | _, PosInf => True
  | Fin x, Fin y => (x <= y)%Qc
  | _, _ => False
  end.

(** A record the yearly aggregation takes: it passes both [isNaN] tests. *)
Definition qualifies (item : Data) : bool :=
  negb (isNaN (ModelYear item)) && negb (isNaN (ElectricRange item)).

(** The records taken for the year cell [y], in view order, and the sum of
    their ranges as numbers. *)
Definition year_rows (y : cell number) (view : list Data) : list Data :=
  filter (fun item => qualifies item && Obj.cell_key_eqb (ModelYear item) y)
         view.

Definition year_sum (y : cell number) (view : list Data) : number :=
  fold_left add
    (map (fun item => to_number (ElectricRange item)) (year_rows y view)) zero.


(** The tables of the pages 1 to [lastPage], in order. *)
Definition pages (view : list Data) : list (list Data) :=
  map (fun i => paginatedData view (Z.of_nat i))
      (seq 1 (Z.to_nat (lastPage (List.length view)))).

Definition cell_string_dec (c d : cell string) : {c = d} + {c <> d}.
Proof.
  decide equality. apply string_dec.
Defined.

End Spec.

(* ================================================================= *)
(** ** Facts about numbers *)

Import JS Dashboard Spec.

Unset Implicit Arguments.

Section NumberFacts.

Lemma Qc_eq_bool_refl (x : Qc) : Qc_eq_bool x x = true.
Proof.
  unfold Qc_eq_bool. destruct (Qc_eq_dec x x) as [_ | H]; [reflexivity |].
  now elim H.
Qed.

Lemma Qc_eq_bool_iff (x y : Qc) : Qc_eq_bool x y = true <-> x = y.
Proof.
  split; [apply Qc_eq_bool_correct | intros ->; apply Qc_eq_bool_refl].
Qed.

Lemma number_eqb_eq (a b : number) : number_eqb a b = true -> a = b.
Proof.
  destruct a, b; simpl; try discriminate; try reflexivity.
  intros H. f_equal. now apply Qc_eq_bool_correct.
Qed.

Lemma number_eqb_truthy_refl (n : number) :
  truthy n = true -> number_eqb n n = true.
Proof.
  destruct n; simpl; try discriminate; try reflexivity.
  intros _. apply Qc_eq_bool_refl.
Qed.

Lemma number_same_iff (a b : number) : number_same a b = true <-> a = b.
Proof.
  split.
  - destruct a, b; simpl; try discriminate; try reflexivity.
    intros H. f_equal. now apply Qc_eq_bool_correct.
  - intros ->. destruct b; simpl; try reflexivity. apply Qc_eq_bool_refl.
Qed.

Lemma add_zero_r (a : number) : add a zero = a.
Proof.
  destruct a; simpl; try reflexivity.
  f_equal. apply Qcplus_0_r.
Qed.

Lemma falsy_finite (q : Qc) : truthy (Fin q) = false -> Fin q = zero.
Proof.
  simpl. intros H. apply negb_false_iff in H.
  apply Qc_eq_bool_correct in H. now subst.
Qed.

Lemma or_zero_valid (c : cell number) (a : number) :
  add a (or_zero c) =
  fold_left add (valid_ranges [mkData Null Null Null Null Null Null Null Null
                                 Null Null c Null Null Null Null Null Null]) a.
Proof.
  destruct c as [| | n]; simpl; try apply add_zero_r.
  destruct n; simpl; try apply add_zero_r; try reflexivity.
  destruct (negb (Qc_eq_bool q (Q2Qc 0))) eqn:E; [reflexivity |].
  now rewrite (falsy_finite q E).
Qed.

Lemma string_eqb_cell_iff (c d : cell string) :
  cell_same String.eqb c d = true <-> c = d.
Proof.
  destruct c, d; simpl; split; try discriminate; try reflexivity.
  - intros H. apply String.eqb_eq in H. now subst.
  - intros [= ->]. apply String.eqb_refl.
Qed.

Lemma number_cell_iff (c d : cell number) :
  cell_same number_same c d = true <-> c = d.
Proof.
  destruct c, d; simpl; split; try discriminate; try reflexivity.
  - intros H. apply number_same_iff in H. now subst.
  - intros [= ->]. now apply number_same_iff.
Qed.

End NumberFacts.

(* ================================================================= *)
(** ** The filter stage *)

Section FilterStage.

Lemma year_test_spec (y : option number) (item : Data) :
  year_test y item = true <->
  (forall n, y = Some n -> truthy n = true -> ModelYear item = Val n).
Proof.
  unfold year_test. destruct y as [n |].
  - destruct (truthy n) eqn:T.
    + unfold cell_number_eqb. split.
      * intros H k [= <-] _.
        destruct (ModelYear item); try discriminate.
        f_equal. now apply number_eqb_eq.
      * intros H. rewrite (H n eq_refl T).
        now apply number_eqb_truthy_refl.
    + split; [| reflexivity].
      intros _ k [= <-] T'. congruence.
  - split; [| reflexivity]. intros _ k [=].
Qed.

Lemma make_test_spec (m : option string) (item : Data) :
  make_test m item = true <->
  (forall s, m = Some s -> s <> EmptyString -> Make item = Val s).
Proof.
  unfold make_test. destruct m as [s |].
  - destruct (String.eqb s EmptyString) eqn:E; simpl.
    + apply String.eqb_eq in E. split; [| reflexivity].
      intros _ k [= <-] N. now elim N.
    + apply String.eqb_neq in E. unfold cell_string_eqb. split.
      * intros H k [= <-] _.
        destruct (Make item); try discriminate.
        apply String.eqb_eq in H. now subst.
      * intros H. rewrite (H s eq_refl E). apply String.eqb_refl.
  - split; [| reflexivity]. intros _ k [=].
Qed.

Lemma filter_Subseq {A} (p : A -> bool) (l : list A) : Subseq (filter p l) l.
Proof.
  induction l as [| x l IH]; simpl.
  - constructor.
  - destruct (p x); now constructor.
Qed.

(** C1, as amended: a record of the store is in the filtered view exactly
    when it meets every constraint the filter acts on: a [selectedYear]
    other than null, 0 and NaN requires the record's model year to be that
    number, a [selectedMake] other than null and the empty string requires
    the record's make to be that string (so a record whose year or make is
    missing fails such a constraint); the view is a subsequence of the
    store, in store order, and filtering distributes over concatenation. *)
Theorem filteredData_spec :
  forall (data : list Data) (y : option number) (m : option string),
    (forall item,
        In item (filteredData data y m) <->
        In item data /\ matches_every_set y m item) /\
    Subseq (filteredData data y m) data /\
    (forall more,
        filteredData (data ++ more) y m =
        filteredData data y m ++ filteredData more y m).
Proof.
  intros data y m. unfold filteredData. split; [| split].
  - intros item. rewrite filter_In, andb_true_iff.
    rewrite year_test_spec, make_test_spec. reflexivity.
  - apply filter_Subseq.
  - intros more. apply filter_app.
Qed.

(** C1, as stated, fails: with [selectedYear] set to 0 a record of model
    year 2020 is in the view although its year is not the selected one. *)
Lemma filteredData_year_zero_not_exact :
  let item := row (Val "TESLA"%string) (Val (of_Z 2020)) (Val (of_Z 220))
                  (Val "BEV"%string) in
  In item (filteredData [item] (Some (of_Z 0)) None) /\
  ~ matches_every_given (Some (of_Z 0)) None item.
Proof.
  split.
  - vm_compute. now left.
  - intros [H _]. specialize (H _ eq_refl). discriminate H.
Qed.

(** C10: a [selectedYear] of 0 or NaN and a [selectedMake] that is the
    empty string select what the absent constraint selects: the view is
    the one with that constraint null, whatever the other constraint is;
    so rows of model year 0, or of empty make, cannot be singled out. *)
Theorem falsy_constraint_is_unset :
  forall (data : list Data) (y : option number) (m : option string),
    filteredData data (Some zero) m = filteredData data None m /\
    filteredData data (Some NaN) m = filteredData data None m /\
    filteredData data y (Some EmptyString) = filteredData data y None.
Proof.
  intros data y m. repeat split; reflexivity.
Qed.

End FilterStage.

(* ================================================================= *)
(** ** Summary statistics *)

Section Summary.

Lemma fold_or_zero_valid (view : list Data) (a : number) :
  fold_left (fun sum item => add sum (or_zero (ElectricRange item))) view a =
  fold_left add (valid_ranges view) a.
Proof.
  revert a. induction view as [| item view IH]; intros a; [reflexivity |].
  cbn [fold_left]. rewrite IH.
  change (valid_ranges (item :: view))
    with ((fun item => match ElectricRange item with
                       | Val NaN => []
                       | Val n => [n]
                       | _ => []
                       end) item ++ valid_ranges view).
  rewrite fold_left_app. f_equal.
  rewrite or_zero_valid. unfold valid_ranges. simpl.
  now rewrite app_nil_r.
Qed.

(** C2: the average range is the sum of the electric ranges that are
    present and valid numbers, divided by the length of the whole view;
    for the empty view it is NaN, which is not the number 0. *)
Theorem averageRange_spec :
  forall view : list Data,
    averageRange view =
      div (sum_numbers (valid_ranges view)) (of_nat (List.length view)) /\
    averageRange [] = NaN /\
    averageRange [] <> zero.
Proof.
  intros view. split; [| split].
  - unfold averageRange, totalVehicles, sum_numbers.
    now rewrite fold_or_zero_valid.
  - reflexivity.
  - discriminate.
Qed.

End Summary.

(* ================================================================= *)
(** ** Filter options *)

Section Facets.
Context {A : Type} (same : A -> A -> bool).
Hypothesis same_iff : forall a b, same a b = true <-> a = b.

Lemma existsb_same_In (x : A) (s : list A) :
  existsb (same x) s = true <-> In x s.
Proof.
  rewrite existsb_exists. split.
  - intros [y [Hy E]]. apply same_iff in E. now subst.
  - intros H. exists x. split; [assumption | now apply same_iff].
Qed.

Lemma In_set_add (s : list A) (x y : A) :
  In y (set_add same s x) <-> In y s \/ y = x.
Proof.
  unfold set_add. destruct (existsb (same x) s) eqn:E.
  - apply existsb_same_In in E. split; [now left |].
    intros [H | ->]; assumption.
  - rewrite in_app_iff. simpl. intuition.
Qed.

Lemma In_fold_set_add (l s : list A) (y : A) :
  In y (fold_left (set_add same) l s) <-> In y s \/ In y l.
Proof.
  revert s. induction l as [| x l IH]; intros s; simpl.
  - intuition.
  - rewrite IH, In_set_add. intuition.
Qed.

Lemma In_Array_from_Set (l : list A) (y : A) :
  In y (Array_from_Set same l) <-> In y l.
Proof.
  unfold Array_from_Set. rewrite In_fold_set_add. simpl. intuition.
Qed.
End Facets.

Section FacetIndex.

(** C8: the year and make options of a render depend on the store alone:
    two renders over the same store, with any two selections (and pages),
    offer the same options, and an option is offered exactly when some
    record of the full store carries it, so that selecting one make
    removes no other make from the options. *)
Theorem facets_ignore_selection :
  forall (data : list Data) (p1 p2 : Z) (y1 y2 : option number)
         (m1 m2 : option string),
    r_uniqueYears (render (mkState data p1 y1 m1)) =
      r_uniqueYears (render (mkState data p2 y2 m2)) /\
    r_uniqueMakesList (render (mkState data p1 y1 m1)) =
      r_uniqueMakesList (render (mkState data p2 y2 m2)) /\
    (forall c, In c (r_uniqueYears (render (mkState data p1 y1 m1))) <->
               In c (map ModelYear data)) /\
    (forall c, In c (r_uniqueMakesList (render (mkState data p1 y1 m1))) <->
               In c (map Make data)).
Proof.
  intros. cbn [render r_uniqueYears r_uniqueMakesList Dashboard.data].
  repeat split; try reflexivity.
  - now apply (In_Array_from_Set _ number_cell_iff).
  - now apply (In_Array_from_Set _ number_cell_iff).
  - now apply (In_Array_from_Set _ string_eqb_cell_iff).
  - now apply (In_Array_from_Set _ string_eqb_cell_iff).
Qed.

End FacetIndex.

(* ================================================================= *)
(** ** Pagination *)

Section Pagination.

Lemma slice_nonneg {A} (l : list A) (a b : Z) :
  (0 <= a)%Z -> (0 <= b)%Z ->
  slice l a b =
  firstn (Z.to_nat (Z.min b (Z.of_nat (List.length l)) -
                    Z.min a (Z.of_nat (List.length l))))
         (skipn (Z.to_nat (Z.min a (Z.of_nat (List.length l)))) l).
Proof.
  intros Ha Hb. unfold slice.
  destruct (Z.ltb_spec a 0); [lia |].
  destruct (Z.ltb_spec b 0); [lia |]. reflexivity.
Qed.

Lemma length_slice_le {A} (l : list A) (a b : Z) :
  (a <= b)%Z -> (Z.of_nat (List.length (slice l a b)) <= b - a)%Z.
Proof.
  intros Hab. unfold slice. rewrite length_firstn, length_skipn.
  destruct (Z.ltb_spec a 0), (Z.ltb_spec b 0); lia.
Qed.

(** C7: for a 1-based page number and a positive page size, the page
    holds the records at the 1-based positions [(p-1)*size + 1] to
    [min (p*size) total] of the view, in order (entry [k] of the page is
    entry [(p-1)*size + k] of the view, counting from 0), so it has at most
    [size] records; of 23 records in pages of 10, page 1 is the first ten
    and page 3 the last three. *)
Theorem paginate_spec :
  forall (view : list Data) (p size : Z),
    (1 <= p)%Z -> (0 < size)%Z ->
    let total := Z.of_nat (List.length view) in
    let page := paginate view p size in
    Z.of_nat (List.length page) =
      Z.max 0 (Z.min (p * size) total - (p - 1) * size) /\
    (forall k, k < List.length page ->
               nth_error page k =
               nth_error view (Z.to_nat ((p - 1) * size) + k)) /\
    (Z.of_nat (List.length page) <= size)%Z /\
    (List.length view = 23 ->
     paginatedData view 1 = firstn 10 view /\
     paginatedData view 3 = skipn 20 view /\
     List.length (paginatedData view 1) = 10 /\
     List.length (paginatedData view 3) = 3).
Proof.
  intros view p size Hp Hs total page.
  assert (Hmul : (p * size = (p - 1) * size + size)%Z) by ring.
  assert (Hlo : (0 <= (p - 1) * size)%Z) by nia.
  assert (Hpage : page =
                  firstn (Z.to_nat (Z.min (p * size) total -
                                    Z.min ((p - 1) * size) total))
                         (skipn (Z.to_nat (Z.min ((p - 1) * size) total)) view)).
  { unfold page, paginate. apply slice_nonneg; lia. }
  assert (Hlen : Z.of_nat (List.length page) =
                 Z.max 0 (Z.min (p * size) total - (p - 1) * size)).
  { rewrite Hpage, length_firstn, length_skipn. subst total. lia. }
  split; [exact Hlen |]. split; [| split].
  - intros k Hk. rewrite Hpage, nth_error_firstn.
    rewrite Hpage, length_firstn, length_skipn in Hk.
    destruct (Nat.ltb_spec k (Z.to_nat (Z.min (p * size) total -
                                        Z.min ((p - 1) * size) total)));
      [| lia].
    rewrite nth_error_skipn. f_equal. subst total. lia.
  - lia.
  - intros H23. unfold paginatedData, paginate, ITEMS_PER_PAGE.
    rewrite !slice_nonneg by lia. rewrite H23.
    change (Z.to_nat (Z.min (1 * 10) (Z.of_nat 23) -
                      Z.min ((1 - 1) * 10) (Z.of_nat 23))) with 10.
    change (Z.to_nat (Z.min ((1 - 1) * 10) (Z.of_nat 23))) with 0.
    change (Z.to_nat (Z.min (3 * 10) (Z.of_nat 23) -
                      Z.min ((3 - 1) * 10) (Z.of_nat 23))) with 3.
    change (Z.to_nat (Z.min ((3 - 1) * 10) (Z.of_nat 23))) with 20.
    assert (H3 : List.length (skipn 20 view) = 3)
      by (rewrite length_skipn; lia).
    assert (Hall : firstn 3 (skipn 20 view) = skipn 20 view)
      by (apply firstn_all2; lia).
    change (skipn 0 view) with view.
    rewrite Hall, length_firstn, H23, H3.
    repeat split; reflexivity.
Qed.

(** C7, at an instance: the third page of ten of a 23-row view. *)
Lemma paginate_spec_witness :
  let view := repeat (row Null Null Null Null) 23 in
  let page := paginate view 3 10 in
  Z.of_nat (List.length page) =
    Z.max 0 (Z.min (3 * 10) (Z.of_nat (List.length view)) - (3 - 1) * 10) /\
  (forall k, k < List.length page ->
             nth_error page k =
             nth_error view (Z.to_nat ((3 - 1) * 10) + k)) /\
  (Z.of_nat (List.length page) <= 10)%Z /\
  (List.length view = 23 ->
   paginatedData view 1 = firstn 10 view /\
   paginatedData view 3 = skipn 20 view /\
   List.length (paginatedData view 1) = 10 /\
   List.length (paginatedData view 3) = 3).
Proof.
  apply (paginate_spec (repeat (row Null Null Null Null) 23) 3 10); lia.
Defined.

Lemma lastPage_bounds (total : nat) :
  (10 * (lastPage total - 1) < Z.of_nat total <= 10 * lastPage total)%Z.
Proof.
  unfold lastPage, Math_ceil_div, ITEMS_PER_PAGE.
  pose proof (Z.div_mod (- Z.of_nat total) 10 ltac:(lia)).
  pose proof (Z.mod_pos_bound (- Z.of_nat total) 10 ltac:(lia)).
  lia.
Qed.

(** On a view that has rows, the two buttons keep the page within
    [1 .. lastPage]. *)
Lemma reachable_in_range (total : nat) (p : Z) :
  0 < total -> reachable total p -> (1 <= p <= lastPage total)%Z.
Proof.
  intros Hpos Hr. pose proof (lastPage_bounds total) as Hb.
  induction Hr as [| p p' _ IH Hc].
  - lia.
  - destruct Hc; unfold previousPage, nextPage; lia.
Qed.

(** C5, at the failing input: on an empty view [lastPage] is 0, the Next
    button is enabled on page 1, and its updater moves the page to 0; page
    0 is reachable from the initial state. *)
Theorem next_on_empty_view_gives_page_zero :
  lastPage 0 = 0%Z /\
  nextDisabled 0 1 = false /\
  nextPage 0 1 = 0%Z /\
  reachable 0 0%Z /\
  ~ (1 <= 0 <= lastPage 0)%Z.
Proof.
  repeat split; try reflexivity.
  - apply reach_click with (p := 1%Z); [apply reach_init |].
    exact (click_next 0 1%Z eq_refl).
  - intros [H _]. lia.
Qed.

End Pagination.

(* ================================================================= *)
(** ** Facts about property lists *)

Section ObjFacts.
Context {K V : Type} (key_eqb : K -> K -> bool) (array_index : K -> option N).
Hypothesis key_eqb_iff : forall a b, key_eqb a b = true <-> a = b.

Local Abbreviation get := (Obj.get key_eqb).
Local Abbreviation replace := (Obj.replace key_eqb).
Local Abbreviation define := (Obj.define array_index).
Local Abbreviation insert_index := (Obj.insert_index array_index).
Local Abbreviation set := (Obj.set key_eqb array_index).

Lemma key_eqb_refl (k : K) : key_eqb k k = true.
Proof. now apply key_eqb_iff. Qed.

Lemma key_eqb_neq (a b : K) : key_eqb a b = false <-> a <> b.
Proof.
  split.
  - intros E ->. rewrite key_eqb_refl in E. discriminate.
  - intros N. destruct (key_eqb a b) eqn:E; [| reflexivity].
    apply key_eqb_iff in E. contradiction.
Qed.

Lemma get_None_iff (o : Obj.t K V) (k : K) :
  get o k = None <-> ~ In k (Obj.keys o).
Proof using key_eqb_iff.
  induction o as [| [k' v'] o IH]; simpl.
  - split; [intros _ [] | reflexivity].
  - destruct (key_eqb k k') eqn:E.
    + apply key_eqb_iff in E. subst.
      split; [discriminate | intros H; elim H; now left].
    + apply key_eqb_neq in E. rewrite IH. split.
      * intros H [E1 | E1]; [elim E; now symmetry | exact (H E1)].
      * intros H H1. apply H. now right.
Qed.

Lemma get_Some_In (o : Obj.t K V) (k : K) (v : V) :
  get o k = Some v -> In (k, v) o.
Proof.
  induction o as [| [k' v'] o IH]; simpl; [discriminate |].
  destruct (key_eqb k k') eqn:E.
  - apply key_eqb_iff in E. subst. intros [= ->]. now left.
  - intros H. right. now apply IH.
Qed.

Lemma In_get (o : Obj.t K V) (k : K) (v : V) :
  NoDup (Obj.keys o) -> In (k, v) o -> get o k = Some v.
Proof.
  induction o as [| [k' v'] o IH]; simpl; [contradiction |].
  intros ND [E | Hin].
  - injection E as -> ->. now rewrite key_eqb_refl.
  - inversion ND as [| ? ? Hk ND']; subst.
    destruct (key_eqb k k') eqn:E.
    + apply key_eqb_iff in E. subst. elim Hk.
      change k' with (fst (k', v)). now apply in_map.
    + now apply IH.
Qed.

Lemma keys_replace (o : Obj.t K V) (k : K) (v : V) :
  Obj.keys (replace o k v) = Obj.keys o.
Proof.
  induction o as [| [k' v'] o IH]; simpl; [reflexivity |].
  destruct (key_eqb k k'); simpl; [reflexivity |]. now f_equal.
Qed.

Lemma get_replace (o : Obj.t K V) (k k' : K) (v v0 : V) :
  get o k = Some v0 ->
  get (replace o k v) k' = if key_eqb k' k then Some v else get o k'.
Proof.
  induction o as [| [k1 v1] o IH]; simpl; [discriminate |].
  destruct (key_eqb k k1) eqn:E.
  - apply key_eqb_iff in E. subst k1. intros _. simpl.
    destruct (key_eqb k' k); reflexivity.
  - intros H. simpl. rewrite (IH H).
    destruct (key_eqb k' k1) eqn:E1; [| reflexivity].
    apply key_eqb_iff in E1. subst k1.
    destruct (key_eqb k' k) eqn:E2; [| reflexivity].
    apply key_eqb_iff in E2. subst k'. rewrite key_eqb_refl in E.
    discriminate.
Qed.

Lemma Permutation_insert_index (i : N) (o : Obj.t K V) (k : K) (v : V) :
  Permutation (insert_index i k v o) ((k, v) :: o).
Proof.
  induction o as [| [k' v'] o IH]; simpl; [reflexivity |].
  destruct (array_index k') as [j |]; [| reflexivity].
  destruct (j <? i)%N; [| reflexivity].
  rewrite IH. apply perm_swap.
Qed.

Lemma Permutation_define (o : Obj.t K V) (k : K) (v : V) :
  Permutation (define o k v) ((k, v) :: o).
Proof.
  unfold Obj.define. destruct (array_index k).
  - apply Permutation_insert_index.
  - symmetry. apply Permutation_cons_append.
Qed.

Lemma get_insert_index (i : N) (o : Obj.t K V) (k k' : K) (v : V) :
  get o k = None ->
  get (insert_index i k v o) k' = if key_eqb k' k then Some v else get o k'.
Proof.
  induction o as [| [k1 v1] o IH]; simpl; [reflexivity |].
  destruct (key_eqb k k1) eqn:E; [discriminate |]. intros H.
  destruct (array_index k1) as [j |]; [| reflexivity].
  destruct (j <? i)%N; [| reflexivity].
  simpl. rewrite (IH H).
  destruct (key_eqb k' k1) eqn:E1; [| reflexivity].
  destruct (key_eqb k' k) eqn:E2; [| reflexivity].
  apply key_eqb_iff in E1, E2. subst. rewrite key_eqb_refl in E.
  discriminate.
Qed.

Lemma get_snoc (o : Obj.t K V) (k k' : K) (v : V) :
  get o k = None ->
  get (o ++ [(k, v)]) k' = if key_eqb k' k then Some v else get o k'.
Proof.
  induction o as [| [k1 v1] o IH]; simpl; [reflexivity |].
  destruct (key_eqb k k1) eqn:E; [discriminate |]. intros H.
  rewrite (IH H).
  destruct (key_eqb k' k1) eqn:E1; [| reflexivity].
  destruct (key_eqb k' k) eqn:E2; [| reflexivity].
  apply key_eqb_iff in E1, E2. subst. rewrite key_eqb_refl in E.
  discriminate.
Qed.

Lemma get_define (o : Obj.t K V) (k k' : K) (v : V) :
  get o k = None ->
  get (define o k v) k' = if key_eqb k' k then Some v else get o k'.
Proof.
  unfold Obj.define. destruct (array_index k).
  - apply get_insert_index.
  - apply get_snoc.
Qed.

(** The law of assignment: [o[k] = v] changes what [o[k]] reads and
    nothing else. *)
Lemma get_set (o : Obj.t K V) (k k' : K) (v : V) :
  get (set o k v) k' = if key_eqb k' k then Some v else get o k'.
Proof.
  unfold Obj.set. destruct (get o k) as [v0 |] eqn:G.
  - now apply get_replace with (v0 := v0).
  - now apply get_define.
Qed.

Lemma NoDup_keys_set (o : Obj.t K V) (k : K) (v : V) :
  NoDup (Obj.keys o) -> NoDup (Obj.keys (set o k v)).
Proof.
  intros ND. unfold Obj.set. destruct (get o k) as [v0 |] eqn:G.
  - now rewrite keys_replace.
  - apply get_None_iff in G.
    apply Permutation_NoDup with (l := k :: Obj.keys o).
    + symmetry. unfold Obj.keys.
      change (k :: map fst o) with (map fst ((k, v) :: o)).
      apply Permutation_map, Permutation_define.
    + now constructor.
Qed.

Lemma keys_set_new (o : Obj.t K V) (k : K) (v : V) :
  get o k = None -> array_index k = None ->
  Obj.keys (set o k v) = Obj.keys o ++ [k].
Proof.
  intros G I. unfold Obj.set, Obj.define. rewrite G, I.
  unfold Obj.keys. now rewrite map_app.
Qed.

Lemma keys_set_old (o : Obj.t K V) (k : K) (v v0 : V) :
  get o k = Some v0 -> Obj.keys (set o k v) = Obj.keys o.
Proof.
  intros G. unfold Obj.set. rewrite G. apply keys_replace.
Qed.
Lemma filter_keys_insert_index (p : K -> bool) (i : N) (o : Obj.t K V)
    (k : K) (v : V) :
  p k = false ->
  filter p (Obj.keys (insert_index i k v o)) = filter p (Obj.keys o).
Proof.
  intros Hp. induction o as [| [k' v'] o IH]; simpl.
  - now rewrite Hp.
  - destruct (array_index k') as [j |]; [destruct (j <? i)%N |]; simpl;
      try now rewrite Hp.
    now rewrite IH.
Qed.
End ObjFacts.

Section CountFacts.

Local Abbreviation sget := (Obj.get String.eqb).
Local Abbreviation sset := (Obj.set String.eqb Obj.string_index).

Lemma list_sum_Permutation (l l' : list nat) :
  Permutation l l' -> list_sum l = list_sum l'.
Proof.
  induction 1; simpl; lia.
Qed.

Lemma append_assoc (s t u : string) :
  ((s ++ t) ++ u = s ++ (t ++ u))%string.
Proof.
  induction s as [| c s IH]; simpl; [reflexivity | now rewrite IH].
Qed.

Lemma ordinary_no_method (k : string) : ordinary k -> no_method k.
Proof.
  unfold ordinary, no_method, Obj.Object_prototype.
  destruct (String.eqb k "__proto__"); [discriminate |].
  destruct (existsb (String.eqb k) Obj.prototype_methods);
    [discriminate | reflexivity].
Qed.

Lemma no_method_prototype (k f : string) :
  no_method k -> Obj.Object_prototype k <> Some (Obj.Method f).
Proof.
  unfold no_method, Obj.Object_prototype. intros ->.
  destruct (String.eqb k "__proto__"); discriminate.
Qed.

Lemma total_replace (o : counts) (k : string) (v v0 : tally) :
  sget o k = Some v0 ->
  total (Obj.replace String.eqb o k v) + count_of v0 = total o + count_of v.
Proof.
  unfold total.
  induction o as [| [k1 v1] o IH]; simpl; [discriminate |].
  destruct (String.eqb k k1).
  - intros [= ->]. simpl. lia.
  - intros H. simpl. specialize (IH H). lia.
Qed.

Lemma total_define (o : counts) (k : string) (v : tally) :
  total (Obj.define Obj.string_index o k v) = count_of v + total o.
Proof.
  unfold total.
  rewrite (list_sum_Permutation _ _
             (Permutation_map (fun e => count_of (snd e))
                (Permutation_define Obj.string_index o k v))).
  reflexivity.
Qed.

(** The law of the counting step on own properties. *)
Lemma get_bump (o : counts) (k k' : string) :
  sget (bump o k) k' =
  if String.eqb k' k then bumped (sget o k) k else sget o k'.
Proof.
  unfold bump, bumped.
  destruct (sget o k) as [[c | s] |] eqn:G.
  - apply get_set, String.eqb_eq.
  - apply get_set, String.eqb_eq.
  - destruct (Obj.Object_prototype k) as [[f |] |].
    + apply get_set, String.eqb_eq.
    + destruct (String.eqb_spec k' k) as [-> | _]; [exact G | reflexivity].
    + apply get_set, String.eqb_eq.
Qed.

Lemma NoDup_keys_bump (o : counts) (k : string) :
  NoDup (Obj.keys o) -> NoDup (Obj.keys (bump o k)).
Proof.
  intros ND. unfold bump.
  destruct (sget o k) as [[c | s] |];
    try (apply NoDup_keys_set; [apply String.eqb_eq | exact ND]).
  destruct (Obj.Object_prototype k) as [[f |] |];
    try (apply NoDup_keys_set; [apply String.eqb_eq | exact ND]).
  exact ND.
Qed.

(** The string keys after a counting step: the same, or one more at the
    end. *)
Lemma string_keys_bump (o : counts) (k : string) :
  string_keys (bump o k) = string_keys o \/
  (sget o k = None /\ Obj.Object_prototype k <> Some Obj.ProtoAccessor /\
   string_keys (bump o k) = string_keys o ++ [k]).
Proof.
  assert (Hnew : forall v, sget o k = None ->
            string_keys (sset o k v) = string_keys o \/
            string_keys (sset o k v) = string_keys o ++ [k]).
  { intros v G. unfold string_keys.
    destruct (Obj.string_index k) as [i |] eqn:I.
    - left. unfold Obj.set, Obj.define. rewrite G, I.
      apply filter_keys_insert_index. now rewrite I.
    - right. rewrite (keys_set_new String.eqb Obj.string_index o k v G I).
      rewrite filter_app. simpl. now rewrite I. }
  assert (Hold : forall v v0, sget o k = Some v0 ->
            string_keys (sset o k v) = string_keys o).
  { intros v v0 G. unfold string_keys.
    now rewrite (keys_set_old String.eqb Obj.string_index o k v v0 G). }
  unfold bump. destruct (sget o k) as [[c | s] |] eqn:G.
  - left. now apply Hold with (v0 := Count c).
  - left. now apply Hold with (v0 := Text s).
  - destruct (Obj.Object_prototype k) as [[f |] |] eqn:P.
    + destruct (Hnew (Text (Obj.native_source f ++ "1")) eq_refl) as [E | E];
        [now left | right].
      repeat split; [discriminate | exact E].
    + now left.
    + destruct (Hnew (Count (0 + 1)) eq_refl) as [E | E]; [now left | right].
      repeat split; [discriminate | exact E].
Qed.

Lemma fold_bump_map (key : Data -> string) (view : list Data) (o : counts) :
  fold_left (fun acc item => bump acc (key item)) view o =
  fold_left bump (map key view) o.
Proof.
  revert o. induction view as [| item view IH]; intros o; simpl;
    [reflexivity | apply IH].
Qed.

Lemma bumped_bucket_value (k : string) (c : nat) :
  bumped (bucket_value k c) k = bucket_value k (c + 1).
Proof.
  rewrite Nat.add_1_r. unfold bumped, bucket_value.
  destruct c as [| c]; destruct (Obj.Object_prototype k) as [[f |] |];
    try reflexivity.
  - now rewrite append_assoc.
  - now rewrite Nat.add_1_r.
Qed.

(** What the counting loop has built after the keys [l]. *)
Lemma fold_bump_spec (l : list string) :
  NoDup (Obj.keys (fold_left bump l (Obj.empty string tally))) /\
  (forall k,
      sget (fold_left bump l (Obj.empty string tally)) k =
      bucket_value k (count_occ string_dec l k)).
Proof.
  induction l as [| x l [ND G]] using rev_ind.
  - split; [constructor | reflexivity].
  - rewrite fold_left_app. cbn [fold_left].
    split; [now apply NoDup_keys_bump |].
    intros k. rewrite get_bump, count_occ_app, !G. simpl.
    destruct (String.eqb_spec k x) as [-> | N].
    + destruct (string_dec x x) as [_ | N]; [| now elim N].
      apply bumped_bucket_value.
    + destruct (string_dec x k) as [E | _]; [now elim N |].
      now rewrite Nat.add_0_r.
Qed.

Lemma In_fold_bump (l : list string) (k : string) (v : tally) :
  In (k, v) (fold_left bump l (Obj.empty string tally)) <->
  bucket_value k (count_occ string_dec l k) = Some v.
Proof.
  destruct (fold_bump_spec l) as [ND G]. rewrite <- G. split.
  - apply (In_get String.eqb String.eqb_eq _ _ _ ND).
  - apply (get_Some_In String.eqb String.eqb_eq).
Qed.

(** A bucket that holds a text holds the text of a built-in function
    followed by 1s: it starts with "function" and is no numeric literal,
    which is what [tally_number] relies on. *)
Lemma text_buckets_start_with_function (l : list string) (k s : string) :
  In (k, Text s) (fold_left bump l (Obj.empty string tally)) ->
  exists rest, s = ("function " ++ rest)%string.
Proof.
  intros H. apply In_fold_bump in H. unfold bucket_value in H.
  destruct (count_occ string_dec l k) as [| c]; [discriminate |].
  destruct (Obj.Object_prototype k) as [[f |] |]; try discriminate.
  injection H as <-. unfold Obj.native_source.
  rewrite append_assoc. eexists. reflexivity.
Qed.

Lemma In_fold_bump_ordinary (l : list string) (k : string) (v : tally) :
  ordinary k ->
  In (k, v) (fold_left bump l (Obj.empty string tally)) <->
  v = Count (count_occ string_dec l k) /\ 0 < count_occ string_dec l k.
Proof.
  intros Hk. rewrite In_fold_bump. unfold bucket_value.
  unfold ordinary in Hk. rewrite Hk.
  destruct (count_occ string_dec l k) as [| c].
  - split; [discriminate | intros [_ H]; lia].
  - split; [intros [= <-]; split; [reflexivity | lia] | now intros [-> _]].
Qed.

Lemma keys_fold_bump_In (l : list string) (k : string) :
  In k (Obj.keys (fold_left bump l (Obj.empty string tally))) -> In k l.
Proof.
  intros H. destruct (fold_bump_spec l) as [_ G]. specialize (G k).
  apply (count_occ_In string_dec).
  destruct (count_occ string_dec l k); [| lia].
  simpl in G. apply (get_None_iff String.eqb String.eqb_eq) in G.
  contradiction.
Qed.

Lemma keys_fold_bump_owned (l : list string) (k : string) :
  Obj.Object_prototype k <> Some Obj.ProtoAccessor -> In k l ->
  In k (Obj.keys (fold_left bump l (Obj.empty string tally))).
Proof.
  intros Hk Hin. destruct (fold_bump_spec l) as [_ G]. specialize (G k).
  apply (count_occ_In string_dec) in Hin.
  destruct (in_dec string_dec k
              (Obj.keys (fold_left bump l (Obj.empty string tally))))
    as [I | I]; [exact I |].
  apply (get_None_iff String.eqb String.eqb_eq) in I. rewrite G in I.
  unfold bucket_value in I.
  destruct (count_occ string_dec l k); [lia |].
  destruct (Obj.Object_prototype k) as [[f |] |];
    [discriminate | now elim Hk | discriminate].
Qed.

Lemma values_fold_bump_counts (l : list string) :
  Forall no_method l ->
  Forall (fun e : string * tally => exists c, snd e = Count c)
         (fold_left bump l (Obj.empty string tally)).
Proof.
  intros Hl. apply Forall_forall. intros [k v] Hin.
  assert (Hk : In k l).
  { apply keys_fold_bump_In. change k with (fst (k, v)). now apply in_map. }
  apply In_fold_bump in Hin. unfold bucket_value in Hin.
  destruct (count_occ string_dec l k) as [| c]; [discriminate |].
  destruct (Obj.Object_prototype k) as [[f |] |] eqn:P.
  - elim (no_method_prototype k f); [| exact P].
    now apply (proj1 (Forall_forall _ _) Hl).
  - discriminate.
  - injection Hin as <-. now exists (S c).
Qed.

Lemma total_fold_bump (l : list string) :
  Forall ordinary l ->
  total (fold_left bump l (Obj.empty string tally)) = List.length l.
Proof.
  induction l as [| x l IH] using rev_ind; intros Hl; [reflexivity |].
  apply Forall_app in Hl. destruct Hl as [Hl Hx].
  inversion Hx as [| ? ? Px _]; subst. specialize (IH Hl).
  rewrite fold_left_app, length_app. cbn [fold_left List.length].
  destruct (fold_bump_spec l) as [_ G]. specialize (G x).
  unfold bucket_value in G. unfold ordinary in Px. rewrite Px in G.
  set (o := fold_left bump l (Obj.empty string tally)) in *.
  unfold bump. rewrite G, Px.
  destruct (count_occ string_dec l x) as [| c].
  - unfold Obj.set. rewrite G, total_define, IH. simpl. lia.
  - unfold Obj.set. rewrite G.
    pose proof (total_replace o x (Count (S c + 1)) (Count (S c)) G) as H.
    cbn [count_of] in H. lia.
Qed.

Lemma length_fold_bump (l : list string) :
  Forall ordinary l ->
  List.length (fold_left bump l (Obj.empty string tally)) =
  List.length (nodup string_dec l).
Proof.
  intros Hl. destruct (fold_bump_spec l) as [ND _].
  rewrite <- (length_map fst (fold_left bump l (Obj.empty string tally))).
  apply Permutation_length, NoDup_Permutation.
  - exact ND.
  - apply NoDup_nodup.
  - intros k. fold (Obj.keys (fold_left bump l (Obj.empty string tally))).
    rewrite nodup_In. split; [apply keys_fold_bump_In |].
    intros Hin. apply keys_fold_bump_owned; [| exact Hin].
    rewrite (proj1 (Forall_forall _ _) Hl k Hin). discriminate.
Qed.

Lemma map_pair_id {A B} (l : list (A * B)) :
  map (fun e => (fst e, snd e)) l = l.
Proof.
  induction l as [| [a b] l IH]; simpl; [reflexivity | now f_equal].
Qed.

End CountFacts.

(* ================================================================= *)
(** ** Facts about sorting and order of occurrence *)

Section SortFacts.

Lemma Qc_ltb_lt (x y : Qc) : Qc_ltb x y = true <-> (x < y)%Qc.
Proof.
  unfold Qc_ltb. rewrite Qclt_alt.
  destruct (x ?= y)%Qc; split; congruence.
Qed.

Lemma positive_sub_of_Z (a b : Z) :
  positive (sub (of_Z b) (of_Z a)) = (a <? b)%Z.
Proof.
  unfold sub, of_Z. cbn [neg add positive].
  apply eq_true_iff_eq. rewrite Qc_ltb_lt, Z.ltb_lt.
  unfold Qclt, Qcplus, Qcopp. cbn [this Q2Qc].
  repeat setoid_rewrite Qred_correct.
  rewrite <- inject_Z_opp, <- inject_Z_plus.
  change 0%Q with (inject_Z 0). rewrite <- Zlt_Qlt. lia.
Qed.

Lemma positive_by_count_desc (k1 k2 : string) (m n : nat) :
  positive (by_count_desc (k1, Count m) (k2, Count n)) = (m <? n).
Proof.
  unfold by_count_desc, of_nat. cbn [snd tally_number].
  unfold of_nat. rewrite positive_sub_of_Z.
  apply eq_true_iff_eq. rewrite Z.ltb_lt, Nat.ltb_lt. lia.
Qed.


Context {A : Type} (cmp : A -> A -> number).

Lemma length_sort_insert (x : A) (l : list A) :
  List.length (sort_insert cmp x l) = S (List.length l).
Proof.
  induction l as [| y l IH]; simpl; [reflexivity |].
  destruct (positive (cmp x y)); simpl; [now rewrite IH | reflexivity].
Qed.

Lemma length_sort (l : list A) : List.length (sort cmp l) = List.length l.
Proof.
  induction l as [| x l IH]; simpl; [reflexivity |].
  now rewrite length_sort_insert, IH.
Qed.

Lemma In_sort_insert (x z : A) (l : list A) :
  In z (sort_insert cmp x l) <-> z = x \/ In z l.
Proof.
  induction l as [| y l IH]; simpl.
  - split; [intros [E | []]; now left | intros [E | []]; now left].
  - destruct (positive (cmp x y)); simpl.
    + rewrite IH. split.
      * intros [E | [E | H]]; auto.
      * intros [E | [E | H]]; auto.
    + split.
      * intros [E | H]; auto.
      * intros [E | H]; auto.
Qed.

Lemma In_sort (z : A) (l : list A) : In z (sort cmp l) <-> In z l.
Proof.
  induction l as [| x l IH]; simpl; [reflexivity |].
  rewrite In_sort_insert, IH. split; intros [E | H]; auto.
Qed.

(** Stability: the elements selected by a test that the comparator never
    separates keep their order. *)
Section Stable.
Variable p : A -> bool.
Hypothesis p_class :
  forall x y, positive (cmp x y) = true -> p x = true -> p y = false.


End Stable.

(** The result is sorted for any transitive order the comparator decides. *)
Section Sorted.
Variable R : A -> A -> Prop.
Hypothesis R_trans : forall x y z, R x y -> R y z -> R x z.
Hypothesis cmp_le : forall x y, positive (cmp x y) = false -> R x y.
Hypothesis cmp_gt : forall x y, positive (cmp x y) = true -> R y x.

Lemma sorted_sort_insert (x : A) (l : list A) :
  StronglySorted R l -> StronglySorted R (sort_insert cmp x l).
Proof.
  induction 1 as [| y l Hs IH Hall]; simpl.
  - repeat constructor.
  - destruct (positive (cmp x y)) eqn:C.
    + constructor; [exact IH |].
      apply Forall_forall. intros z Hz. apply In_sort_insert in Hz.
      destruct Hz as [-> | Hz]; [now apply cmp_gt |].
      now apply (proj1 (Forall_forall _ _) Hall).
    + constructor; [now constructor |].
      constructor; [now apply cmp_le |].
      apply Forall_forall. intros z Hz.
      apply R_trans with y; [now apply cmp_le |].
      now apply (proj1 (Forall_forall _ _) Hall).
Qed.

Lemma sorted_sort (l : list A) : StronglySorted R (sort cmp l).
Proof.
  induction l as [| x l IH]; simpl; [constructor |].
  now apply sorted_sort_insert.
Qed.
End Sorted.
End SortFacts.

Section SortedOn.
Context {A : Type} (cmp : A -> A -> number).
Variable P : A -> Prop.
Variable R : A -> A -> Prop.
Hypothesis R_trans : forall x y z, R x y -> R y z -> R x z.
Hypothesis cmp_le : forall x y, P x -> P y -> positive (cmp x y) = false -> R x y.
Hypothesis cmp_gt : forall x y, P x -> P y -> positive (cmp x y) = true -> R y x.

Lemma sorted_sort_insert_on (x : A) (l : list A) :
  P x -> Forall P l -> StronglySorted R l ->
  StronglySorted R (sort_insert cmp x l).
Proof.
  intros Px HP Hs. induction Hs as [| y l Hs IH Hall]; simpl.
  - repeat constructor.
  - inversion HP as [| ? ? Py HP']; subst.
    destruct (positive (cmp x y)) eqn:C.
    + constructor; [now apply IH |].
      apply Forall_forall. intros z Hz. apply In_sort_insert in Hz.
      destruct Hz as [-> | Hz]; [now apply cmp_gt |].
      now apply (proj1 (Forall_forall _ _) Hall).
    + constructor; [now constructor |].
      constructor; [now apply cmp_le |].
      apply Forall_forall. intros z Hz.
      apply R_trans with y; [now apply cmp_le |].
      now apply (proj1 (Forall_forall _ _) Hall).
Qed.

Lemma sorted_sort_on (l : list A) :
  Forall P l -> StronglySorted R (sort cmp l).
Proof.
  induction l as [| x l IH]; simpl; [constructor |].
  intros HP. inversion HP as [| ? ? Px HP']; subst.
  apply sorted_sort_insert_on; [assumption | | now apply IH].
  apply Forall_forall. intros z Hz. apply In_sort in Hz.
  now apply (proj1 (Forall_forall _ _) HP').
Qed.
End SortedOn.

Section OrderFacts.
Context {A : Type}.

Lemma Before_In (l : list A) (a b : A) : Before l a b -> In a l /\ In b l.
Proof.
  induction 1 as [x y l H | z x y l _ [IHa IHb]]; simpl.
  - split; [now left | now right].
  - split; now right.
Qed.


Lemma Before_decomp (l1 l2 l3 : list A) (a b : A) :
  Before (l1 ++ a :: l2 ++ b :: l3) a b.
Proof.
  induction l1 as [| z l1 IH]; simpl.
  - constructor. apply in_or_app. right. now left.
  - now constructor.
Qed.


Lemma Before_filter (p : A -> bool) (l : list A) (a b : A) :
  Before l a b -> p a = true -> p b = true -> Before (filter p l) a b.
Proof.
  intros H Pa Pb.
  induction H as [x y l H | z x y l _ IH]; simpl.
  - rewrite Pa. constructor. apply filter_In. now split.
  - destruct (p z); [constructor |]; now apply IH.
Qed.


Lemma Before_map {B} (f : A -> B) (l : list A) (a b : A) :
  Before l a b -> Before (map f l) (f a) (f b).
Proof.
  induction 1 as [x y l H | z x y l _ IH]; simpl.
  - constructor. now apply in_map.
  - now constructor.
Qed.

Lemma Before_snoc_inv (l : list A) (k a b : A) :
  Before (l ++ [k]) a b -> Before l a b \/ (In a l /\ b = k).
Proof.
  induction l as [| z l IH]; simpl.
  - inversion 1 as [x y l' Hin | z' x y l' Hb]; subst.
    + contradiction.
    + inversion Hb.
  - inversion 1 as [x y l' Hin | z' x y l' Hb]; subst.
    + apply in_app_or in Hin. destruct Hin as [Hin | [<- | []]].
      * left. now constructor.
      * right. split; [now left | reflexivity].
    + destruct (IH Hb) as [Hl | [Ha ->]].
      * left. now constructor.
      * right. split; [now right | reflexivity].
Qed.
End OrderFacts.

Section IndexFacts.

Lemma index_of_lt (a : string) (l : list string) :
  In a l -> index_of a l < List.length l.
Proof.
  induction l as [| x l IH]; simpl; [contradiction |].
  destruct (String.eqb_spec a x) as [-> | N]; [lia |].
  intros [E | H]; [now elim N | specialize (IH H); lia].
Qed.

Lemma index_of_app_In (a : string) (l r : list string) :
  In a l -> index_of a (l ++ r) = index_of a l.
Proof.
  induction l as [| x l IH]; simpl; [contradiction |].
  destruct (String.eqb_spec a x) as [-> | N]; [reflexivity |].
  intros [E | H]; [now elim N | now rewrite IH].
Qed.

Lemma index_of_app_notin (a : string) (l r : list string) :
  ~ In a l -> index_of a (l ++ r) = List.length l + index_of a r.
Proof.
  induction l as [| x l IH]; simpl; [reflexivity |].
  intros H. destruct (String.eqb_spec a x) as [-> | N].
  - elim H. now left.
  - rewrite IH; [reflexivity |]. intros Hin. apply H. now right.
Qed.

(** The properties of the counting object whose keys are not array indices
    are in the order in which their keys were first met. *)
Lemma string_keys_fold_bump_first_seen (l : list string) :
  forall a b,
    Before (string_keys (fold_left bump l (Obj.empty string tally))) a b ->
    index_of a l < index_of b l.
Proof.
  induction l as [| k l IH] using rev_ind; intros a b.
  - simpl. inversion 1.
  - rewrite fold_left_app. cbn [fold_left].
    set (o := fold_left bump l (Obj.empty string tally)) in *.
    assert (Hsub : forall x, In x (string_keys o) -> In x l).
    { intros x Hx. unfold string_keys in Hx. apply filter_In in Hx.
      now apply (keys_fold_bump_In l x). }
    assert (Hold : forall a b, Before (string_keys o) a b ->
                               index_of a (l ++ [k]) < index_of b (l ++ [k])).
    { intros a' b' Hb. pose proof (Before_In _ _ _ Hb) as [Ia Ib].
      apply Hsub in Ia. apply Hsub in Ib.
      rewrite (index_of_app_In a' l [k] Ia), (index_of_app_In b' l [k] Ib).
      now apply IH. }
    destruct (string_keys_bump o k) as [-> | [G [P ->]]]; [apply Hold |].
    intros Hb. apply Before_snoc_inv in Hb.
    destruct Hb as [Hb | [Ia ->]]; [now apply Hold |].
    apply (get_None_iff String.eqb String.eqb_eq) in G.
    assert (Hk : ~ In k l)
      by (intros Hin; apply G; now apply (keys_fold_bump_owned l k P)).
    apply Hsub in Ia.
    rewrite index_of_app_In by assumption.
    rewrite index_of_app_notin by assumption.
    pose proof (index_of_lt a l Ia). lia.
Qed.

Lemma keys_fold_bump_first_seen (l : list string) (a b : string) :
  Obj.string_index a = None -> Obj.string_index b = None ->
  Before (Obj.keys (fold_left bump l (Obj.empty string tally))) a b ->
  index_of a l < index_of b l.
Proof.
  intros Ia Ib Hb. apply string_keys_fold_bump_first_seen.
  unfold string_keys. apply Before_filter; [exact Hb | |].
  - now rewrite Ia.
  - now rewrite Ib.
Qed.

Lemma slice_prefix {A} (l : list A) (n : nat) :
  slice l 0 (Z.of_nat n) = firstn n l.
Proof.
  rewrite slice_nonneg by lia.
  replace (Z.to_nat (Z.min 0 (Z.of_nat (List.length l)))) with 0 by lia.
  cbn [skipn].
  destruct (Nat.le_gt_cases n (List.length l)) as [H | H].
  - f_equal. lia.
  - rewrite (firstn_all2 (n := n)) by lia.
    apply firstn_all2. lia.
Qed.

End IndexFacts.

(* ================================================================= *)
(** ** Category distribution *)

Section Distribution.

Lemma or_string_blank (c : cell string) (d : string) :
  blank c -> or_string c d = d.
Proof.
  intros [-> | [-> | ->]]; reflexivity.
Qed.

(** C6, at the failing input: of three rows, two of type "__proto__" and one
    of type "BEV", the distribution has the one bucket BEV with count 1: the
    two other rows are in no bucket and the counts add up to 1, not to 3.
    A type named like a method of [Object.prototype] gets a bucket that
    holds a text, not a count. *)
Theorem vehicleTypes_loses_prototype_names :
  vehicleTypesData [row Null Null Null (Val "__proto__"%string);
                    row Null Null Null (Val "__proto__"%string);
                    row Null Null Null (Val "BEV"%string)] =
    [("BEV"%string, Count 1)] /\
  total (vehicleTypesData [row Null Null Null (Val "__proto__"%string);
                           row Null Null Null (Val "__proto__"%string);
                           row Null Null Null (Val "BEV"%string)]) = 1 /\
  (exists s,
      vehicleTypesData [row Null Null Null (Val "constructor"%string)] =
      [("constructor"%string, Text s)]).
Proof.
  split; [reflexivity |]. split; [reflexivity |].
  eexists. reflexivity.
Qed.

(** X17: for a view in which no type (or "Unknown", for a type that is
    missing or empty) is the name of a member of [Object.prototype], the type
    distribution has one entry per bucket, the entry of a bucket holds the
    number of records of the view that carry its name, only buckets with a
    record are present, and the counts add up to the length of the view. *)
Theorem vehicleTypes_partition :
  forall view : list Data,
    (forall item, In item view -> ordinary (type_key item)) ->
    let dist := vehicleTypesData view in
    NoDup (map fst dist) /\
    (forall name value,
        In (name, value) dist <->
        value = Count (bucket_size type_key view name) /\
        0 < bucket_size type_key view name) /\
    total dist = List.length view /\
    (forall item,
        blank (ElectricVehicleType item) -> type_key item = "Unknown"%string).
Proof.
  intros view Hview dist.
  assert (Hl : Forall ordinary (map type_key view)).
  { apply Forall_forall. intros k Hk. apply in_map_iff in Hk.
    destruct Hk as [item [<- Hin]]. now apply Hview. }
  assert (E : dist = fold_left bump (map type_key view) (Obj.empty string tally)).
  { unfold dist, vehicleTypesData, vehicleTypes, Obj.entries.
    now rewrite map_pair_id, fold_bump_map. }
  rewrite E.
  destruct (fold_bump_spec (map type_key view)) as [ND G].
  split; [exact ND |]. split; [| split].
  - intros name value. unfold bucket_size. split.
    + intros Hin. apply In_fold_bump_ordinary; [| exact Hin].
      apply (proj1 (Forall_forall _ _) Hl). apply keys_fold_bump_In.
      change name with (fst (name, value)). now apply in_map.
    + intros [Hv Hpos]. apply In_fold_bump_ordinary; [| now split].
      apply (proj1 (Forall_forall _ _) Hl).
      now apply (count_occ_In string_dec).
  - rewrite (total_fold_bump _ Hl). apply length_map.
  - intros item. apply or_string_blank.
Qed.

(** X17, at an instance: a PHEV row, a row with no type and a BEV row. *)
Lemma vehicleTypes_partition_witness :
  let view := [row Null Null Null (Val "PHEV"%string);
               row Null Null Null Null;
               row Null Null Null (Val "BEV"%string)] in
  let dist := vehicleTypesData view in
  NoDup (map fst dist) /\
  (forall name value,
      In (name, value) dist <->
      value = Count (bucket_size type_key view name) /\
      0 < bucket_size type_key view name) /\
  total dist = List.length view /\
  (forall item,
      blank (ElectricVehicleType item) -> type_key item = "Unknown"%string).
Proof.
  intros view. apply (vehicleTypes_partition view).
  intros item H. simpl in H.
  destruct H as [<- | [<- | [<- | []]]]; reflexivity.
Defined.

End Distribution.

(* ================================================================= *)
(** ** Top-N distribution *)

Section TopN.

Lemma topN_unfold (n : nat) (view : list Data) :
  topN n view =
  firstn n (sort by_count_desc
              (fold_left bump (map make_key view) (Obj.empty string tally))).
Proof.
  unfold topN, makeDistribution, Obj.entries.
  now rewrite map_pair_id, slice_prefix, fold_bump_map.
Qed.

Lemma In_firstn {A} (n : nat) (l : list A) (x : A) :
  In x (firstn n l) -> In x l.
Proof.
  intros H. rewrite <- (firstn_skipn n l). apply in_or_app. now left.
Qed.

Lemma StronglySorted_firstn {A} (R : A -> A -> Prop) (n : nat) (l : list A) :
  StronglySorted R l -> StronglySorted R (firstn n l).
Proof.
  intros H. revert n. induction H as [| x l Hs IH Hall]; intros n.
  - rewrite firstn_nil. constructor.
  - destruct n as [| n]; simpl; constructor; [apply IH |].
    apply Forall_forall. intros z Hz. apply In_firstn in Hz.
    now apply (proj1 (Forall_forall _ _) Hall).
Qed.

Lemma tally_le_trans (a b c : tally) :
  tally_le a b -> tally_le b c -> tally_le a c.
Proof.
  destruct a, b, c; simpl; try tauto. lia.
Qed.

Lemma make_keys_Forall (P : string -> Prop) (view : list Data) :
  (forall item, In item view -> P (make_key item)) ->
  Forall P (map make_key view).
Proof.
  intros H. apply Forall_forall. intros k Hk. apply in_map_iff in Hk.
  destruct Hk as [item [<- Hin]]. now apply H.
Qed.

(** Where every bucket holds a count, the sorted entries are in descending
    order of their counts. *)
Lemma sorted_entries_descending (l : list (string * tally)) :
  Forall (fun e => exists c, snd e = Count c) l ->
  descending (sort by_count_desc l).
Proof.
  intros Hl.
  apply sorted_sort_on
    with (P := fun e : string * tally => exists c, snd e = Count c);
    [| | | exact Hl].
  - intros x y z Hxy Hyz. now apply tally_le_trans with (snd y).
  - intros [k1 v1] [k2 v2] [m Hm] [n Hn] C. simpl in *. subst.
    rewrite positive_by_count_desc in C. apply Nat.ltb_ge in C. exact C.
  - intros [k1 v1] [k2 v2] [m Hm] [n Hn] C. simpl in *. subst.
    rewrite positive_by_count_desc in C. apply Nat.ltb_lt in C. simpl. lia.
Qed.

(** C4, as amended: for a view in which no make is the name of a member of
    [Object.prototype], the top-N sequence has [min n (number of distinct
    buckets)] entries, its counts never increase along the sequence (equal
    counts may follow one another), every entry is a bucket of the view
    with its count, and the sequence the dashboard shows is the one for
    [n = 5]. *)
Theorem topN_spec :
  forall (n : nat) (view : list Data),
    (forall item, In item view -> ordinary (make_key item)) ->
    List.length (topN n view) = Nat.min n (bucket_count make_key view) /\
    descending (topN n view) /\
    (forall name value,
        In (name, value) (topN n view) ->
        value = Count (bucket_size make_key view name) /\
        0 < bucket_size make_key view name) /\
    makeDistributionData view = topN 5 view.
Proof.
  intros n view Hview.
  pose proof (make_keys_Forall ordinary view Hview) as Hl.
  rewrite topN_unfold. split; [| split; [| split]].
  - rewrite length_firstn, length_sort, (length_fold_bump _ Hl). reflexivity.
  - apply StronglySorted_firstn. apply sorted_entries_descending.
    apply values_fold_bump_counts.
    apply Forall_impl with (P := ordinary); [| exact Hl].
    apply ordinary_no_method.
  - intros name value Hin. apply In_firstn in Hin. apply In_sort in Hin.
    apply In_fold_bump_ordinary; [| exact Hin].
    apply (proj1 (Forall_forall _ _) Hl). apply keys_fold_bump_In.
    change name with (fst (name, value)). now apply in_map.
  - reflexivity.
Qed.

(** C4 as amended, at an instance: two TESLA rows and a FORD row. *)
Lemma topN_spec_witness :
  let view := [row (Val "TESLA"%string) Null Null Null;
               row (Val "FORD"%string) Null Null Null;
               row (Val "TESLA"%string) Null Null Null] in
  List.length (topN 5 view) = Nat.min 5 (bucket_count make_key view) /\
  descending (topN 5 view) /\
  (forall name value,
      In (name, value) (topN 5 view) ->
      value = Count (bucket_size make_key view name) /\
      0 < bucket_size make_key view name) /\
  makeDistributionData view = topN 5 view.
Proof.
  intros view. apply (topN_spec 5 view).
  intros item H. simpl in H.
  destruct H as [<- | [<- | [<- | []]]]; reflexivity.
Defined.

(** C4, as stated, fails: two makes with one record each give two entries
    of count 1, which is not a strictly descending sequence. *)
Lemma topN_not_strictly_descending :
  let view := [row (Val "FORD"%string) Null Null Null;
               row (Val "TESLA"%string) Null Null Null] in
  makeDistributionData view =
    [("FORD"%string, Count 1); ("TESLA"%string, Count 1)] /\
  ~ strictly_descending (makeDistributionData view).
Proof.
  split; [reflexivity |].
  intros H. change (makeDistributionData _)
    with [("FORD"%string, Count 1); ("TESLA"%string, Count 1)] in H.
  inversion H as [| ? ? _ Hall]; subst.
  inversion Hall as [| ? ? Hlt _]; subst. simpl in Hlt. lia.
Qed.




(** An array-index make is enumerated before the other makes, whatever the
    order of the records: the order of first encounter holds among string
    keys only. *)
Example topN_index_key_first :
  makeDistributionData [row (Val "TESLA"%string) Null Null Null;
                        row (Val "500"%string) Null Null Null] =
  [("500"%string, Count 1); ("TESLA"%string, Count 1)].
Proof. reflexivity. Qed.

End TopN.

(* ================================================================= *)
(** ** Average range by model year *)

Section YearlyAverage.

Lemma rangeByYear_step_skip (acc : year_accs) (item : Data) :
  isNaN (ModelYear item) = true \/ isNaN (ElectricRange item) = true ->
  rangeByYear_step acc item = acc.
Proof.
  unfold rangeByYear_step. intros [-> | ->]; simpl; [reflexivity |].
  now rewrite andb_false_r.
Qed.

(** A record that passes the guard is counted under its year, whatever
    passes: the range added is [ToNumber] of the cell. *)
Lemma rangeByYear_step_counts (acc : year_accs) (item : Data) :
  isNaN (ModelYear item) = false -> isNaN (ElectricRange item) = false ->
  Obj.get Obj.cell_key_eqb (rangeByYear_step acc item) (ModelYear item) =
  Some (match Obj.get Obj.cell_key_eqb acc (ModelYear item) with
        | Some e =>
            mkYearAcc (acc_year e)
                      (add (acc_averageRange e) (to_number (ElectricRange item)))
                      (acc_count e + 1)
        | None =>
            mkYearAcc (ModelYear item)
                      (add zero (to_number (ElectricRange item))) (0 + 1)
        end).
Proof.
  intros Hy Hr. unfold rangeByYear_step. rewrite Hy, Hr. cbn [negb andb].
  assert (Hrefl : Obj.cell_key_eqb (ModelYear item) (ModelYear item) = true)
    by now apply number_cell_iff.
  destruct (Obj.get Obj.cell_key_eqb acc (ModelYear item)) as [e |] eqn:G.
  - rewrite G. rewrite (get_set Obj.cell_key_eqb Obj.cell_index number_cell_iff). now rewrite Hrefl.
  - rewrite (get_set Obj.cell_key_eqb Obj.cell_index number_cell_iff), Hrefl.
    rewrite (get_set Obj.cell_key_eqb Obj.cell_index number_cell_iff), Hrefl. reflexivity.
Qed.

Lemma YearPoint_eq (y : cell number) (q q' : Qc) :
  (q == q')%Q -> mkYearPoint y (Fin q) = mkYearPoint y (Fin q').
Proof.
  intros H. now rewrite (Qc_is_canon q q' H).
Qed.

(** C3, at the failing input: an empty cell is [null], and [isNaN(null)]
    is false.  Of two records of model year 2020, one with range 100 and
    one with an empty range, the second is counted: the year's average is
    (100 + 0) / 2 = 50, not 100.  A record with an empty model year and
    range 80 gets an entry of its own, with year [null]. *)
Theorem rangeByYear_counts_empty_cells :
  isNaN Null = false /\
  rangeByYearData [row Null (Val (of_Z 2020)) (Val (of_Z 100)) Null;
                   row Null (Val (of_Z 2020)) Null Null] =
    [mkYearPoint (Val (of_Z 2020)) (of_Z 50)] /\
  rangeByYearData [row Null Null (Val (of_Z 80)) Null] =
    [mkYearPoint Null (of_Z 80)].
Proof.
  split; [reflexivity |]. split.
  - vm_compute.
    apply f_equal2; [apply YearPoint_eq; reflexivity | reflexivity].
  - vm_compute.
    apply f_equal2; [apply YearPoint_eq; reflexivity | reflexivity].
Qed.

End YearlyAverage.


(* ================================================================= *)
(** ** Further properties of the filter stage *)

Section FilterLaws.

Lemma filter_andb {A} (p q : A -> bool) (l : list A) :
  filter (fun x => p x && q x) l = filter q (filter p l).
Proof.
  induction l as [| x l IH]; simpl; [reflexivity |].
  destruct (p x); simpl; [| exact IH].
  destruct (q x); now rewrite IH.
Qed.

Lemma filter_all {A} (p : A -> bool) (l : list A) :
  (forall x, In x l -> p x = true) -> filter p l = l.
Proof.
  induction l as [| x l IH]; simpl; [reflexivity |]. intros H.
  rewrite (H x (or_introl eq_refl)). f_equal. apply IH.
  intros y Hy. apply H. now right.
Qed.

Lemma length_filter_le {A} (p : A -> bool) (l : list A) :
  List.length (filter p l) <= List.length l.
Proof.
  induction l as [| x l IH]; simpl; [lia |].
  destruct (p x); simpl; lia.
Qed.

Lemma filteredData_year_only (data : list Data) (y : option number) :
  filteredData data y None = filter (year_test y) data.
Proof.
  unfold filteredData. apply filter_ext. intros item. apply andb_true_r.
Qed.

Lemma filteredData_make_only (data : list Data) (m : option string) :
  filteredData data None m = filter (make_test m) data.
Proof.
  unfold filteredData. apply filter_ext. reflexivity.
Qed.

Lemma filteredData_two_steps (data : list Data) (y : option number)
    (m : option string) :
  filteredData data y m = filter (make_test m) (filter (year_test y) data).
Proof.
  unfold filteredData. apply filter_andb.
Qed.

(** X1: with no selection the view is the whole store; a view is never
    longer than the view of either of its constraints alone, and that one
    never longer than the store. *)
Theorem filteredData_shrinks :
  forall (data : list Data) (y : option number) (m : option string),
    filteredData data None None = data /\
    List.length (filteredData data y m) <=
      List.length (filteredData data y None) /\
    List.length (filteredData data y m) <=
      List.length (filteredData data None m) /\
    List.length (filteredData data y None) <= List.length data /\
    List.length (filteredData data None m) <= List.length data.
Proof.
  intros data y m. split; [| split; [| split; [| split]]].
  - unfold filteredData. now apply filter_all.
  - rewrite filteredData_two_steps, filteredData_year_only.
    apply length_filter_le.
  - rewrite filteredData_make_only. unfold filteredData.
    rewrite (filter_ext _ (fun item => make_test m item && year_test y item))
      by (intros item; apply andb_comm).
    rewrite filter_andb. apply length_filter_le.
  - rewrite filteredData_year_only. apply length_filter_le.
  - rewrite filteredData_make_only. apply length_filter_le.
Qed.

(** X2: the two constraints act one after the other, in either order, and
    filtering a view again with its own selection changes nothing. *)
Theorem filteredData_composes :
  forall (data : list Data) (y : option number) (m : option string),
    filteredData data y m = filteredData (filteredData data y None) None m /\
    filteredData data y m = filteredData (filteredData data None m) y None /\
    filteredData (filteredData data y m) y m = filteredData data y m.
Proof.
  intros data y m. split; [| split].
  - rewrite filteredData_year_only, filteredData_make_only.
    apply filteredData_two_steps.
  - rewrite filteredData_year_only, filteredData_make_only.
    unfold filteredData.
    rewrite (filter_ext _ (fun item => make_test m item && year_test y item))
      by (intros item; apply andb_comm).
    apply filter_andb.
  - unfold filteredData at 1. apply filter_all.
    intros item H. unfold filteredData in H. now apply filter_In in H.
Qed.

End FilterLaws.

(* ================================================================= *)
(** ** Further properties of the filter options and of the make count *)

Section SetLaws.
Context {A : Type} (same : A -> A -> bool).
Hypothesis same_iff : forall a b, same a b = true <-> a = b.

Lemma NoDup_set_add (s : list A) (x : A) :
  NoDup s -> NoDup (set_add same s x).
Proof.
  intros ND. unfold set_add. destruct (existsb (same x) s) eqn:E;
    [exact ND |].
  apply NoDup_app; [exact ND | repeat constructor; intros [] |].
  intros a Ha [<- | []].
  apply (existsb_same_In same same_iff) in Ha. congruence.
Qed.

Lemma NoDup_fold_set_add (l s : list A) :
  NoDup s -> NoDup (fold_left (set_add same) l s).
Proof.
  revert s. induction l as [| x l IH]; intros s ND; simpl; [exact ND |].
  apply IH. now apply NoDup_set_add.
Qed.

Lemma fold_set_add_extends (l s : list A) :
  exists tail, fold_left (set_add same) l s = s ++ tail.
Proof.
  revert s. induction l as [| x l IH]; intros s; simpl.
  - exists []. now rewrite app_nil_r.
  - destruct (IH (set_add same s x)) as [tail ->]. unfold set_add.
    destruct (existsb (same x) s).
    + now exists tail.
    + exists (x :: tail). now rewrite <- app_assoc.
Qed.

Lemma NoDup_Array_from_Set (l : list A) : NoDup (Array_from_Set same l).
Proof.
  apply NoDup_fold_set_add. constructor.
Qed.

Lemma Array_from_Set_app (l more : list A) :
  exists tail,
    Array_from_Set same (l ++ more) = Array_from_Set same l ++ tail.
Proof.
  unfold Array_from_Set. rewrite fold_left_app. apply fold_set_add_extends.
Qed.
End SetLaws.

Section FacetLaws.

(** X3: no year and no make is offered twice, and rows added at the end of
    the store only add options at the end of the two lists: the options are
    in the order in which the store first shows them. *)
Theorem facets_distinct_and_stable :
  forall (data more : list Data),
    NoDup (uniqueYears data) /\
    NoDup (uniqueMakesList data) /\
    (exists tail, uniqueYears (data ++ more) = uniqueYears data ++ tail) /\
    (exists tail,
        uniqueMakesList (data ++ more) = uniqueMakesList data ++ tail).
Proof.
  intros data more. unfold uniqueYears, uniqueMakesList.
  rewrite !map_app. split; [| split; [| split]].
  - apply NoDup_Array_from_Set, number_cell_iff.
  - apply NoDup_Array_from_Set, string_eqb_cell_iff.
  - apply Array_from_Set_app.
  - apply Array_from_Set_app.
Qed.

Lemma length_Array_from_Set_makes (l : list (cell string)) :
  List.length (Array_from_Set (cell_same String.eqb) l) =
  List.length (nodup cell_string_dec l).
Proof.
  apply Permutation_length, NoDup_Permutation.
  - apply NoDup_Array_from_Set, string_eqb_cell_iff.
  - apply NoDup_nodup.
  - intros c. rewrite (In_Array_from_Set _ string_eqb_cell_iff).
    symmetry. apply nodup_In.
Qed.

(** X4: the "Unique Makes" figure is the number of distinct Make cells of
    the view, a missing cell ([null], [undefined]) and the empty string each
    counting as a value; it is at most the number of rows, at least the
    number of buckets of the make chart, and 0 only for the empty view. *)
Theorem uniqueMakes_spec :
  forall view : list Data,
    uniqueMakes view = List.length (nodup cell_string_dec (map Make view)) /\
    uniqueMakes view <= totalVehicles view /\
    bucket_count make_key view <= uniqueMakes view /\
    (uniqueMakes view = 0 <-> view = []).
Proof.
  intros view. unfold uniqueMakes, totalVehicles.
  rewrite length_Array_from_Set_makes.
  set (cells := nodup cell_string_dec (map Make view)).
  assert (Hin : forall c, In c cells <-> In c (map Make view))
    by (intros c; apply nodup_In).
  split; [reflexivity |]. split; [| split].
  - rewrite <- (length_map Make view).
    apply NoDup_incl_length; [apply NoDup_nodup |].
    intros c Hc. now apply Hin.
  - unfold bucket_count.
    rewrite <- (length_map (fun c => or_string c "Unknown") cells).
    apply NoDup_incl_length; [apply NoDup_nodup |].
    intros k Hk. apply nodup_In in Hk. apply in_map_iff in Hk.
    destruct Hk as [item [<- Hitem]]. unfold make_key.
    apply (in_map (fun c => or_string c "Unknown") cells (Make item)).
    apply Hin. now apply in_map.
  - split.
    + intros H0. destruct view as [| item view]; [reflexivity |].
      assert (Hc : In (Make item) cells) by (apply Hin; now left).
      destruct cells; [contradiction | discriminate].
    + intros ->. reflexivity.
Qed.

End FacetLaws.

(* ================================================================= *)
(** ** Further properties of the distributions *)

Section SortLaws.
Context {A : Type} (cmp : A -> A -> number).

Lemma Permutation_sort_insert (x : A) (l : list A) :
  Permutation (sort_insert cmp x l) (x :: l).
Proof.
  induction l as [| y l IH]; simpl; [reflexivity |].
  destruct (positive (cmp x y)); [| reflexivity].
  rewrite IH. apply perm_swap.
Qed.

Lemma Permutation_sort (l : list A) : Permutation (sort cmp l) l.
Proof.
  induction l as [| x l IH]; simpl; [reflexivity |].
  rewrite Permutation_sort_insert. now constructor.
Qed.

Lemma StronglySorted_app_inv (R : A -> A -> Prop) (l1 l2 : list A) :
  StronglySorted R (l1 ++ l2) ->
  forall a b, In a l1 -> In b l2 -> R a b.
Proof.
  induction l1 as [| x l1 IH]; simpl; intros Hs a b Ha Hb; [contradiction |].
  inversion Hs as [| ? ? Hs' Hall]; subst.
  destruct Ha as [<- | Ha].
  - apply (proj1 (Forall_forall _ _) Hall). apply in_or_app. now right.
  - now apply IH.
Qed.

Lemma NoDup_firstn (n : nat) (l : list A) : NoDup l -> NoDup (firstn n l).
Proof.
  intros H. rewrite <- (firstn_skipn n l) in H.
  now apply NoDup_app_remove_r in H.
Qed.
End SortLaws.

Section DistributionLaws.

Lemma list_sum_firstn_le (n : nat) (l : list nat) :
  list_sum (firstn n l) <= list_sum l.
Proof.
  revert n. induction l as [| x l IH]; intros [| n]; simpl; try lia.
  specialize (IH n). lia.
Qed.

Lemma or_string_nonempty (c : cell string) (d : string) :
  d <> EmptyString -> or_string c d <> EmptyString.
Proof.
  intros Hd. destruct c as [| | s]; simpl; try exact Hd.
  destruct (String.eqb_spec s EmptyString); [exact Hd | assumption].
Qed.

Lemma fold_bump_names (key : Data -> string) (view : list Data) :
  (forall item, key item <> EmptyString) ->
  Forall (fun e : string * tally => fst e <> EmptyString)
         (fold_left bump (map key view) (Obj.empty string tally)).
Proof.
  intros Hkey. apply Forall_forall. intros [name value] Hin.
  assert (Hk : In name (map key view)).
  { apply keys_fold_bump_In. change name with (fst (name, value)).
    now apply in_map. }
  apply in_map_iff in Hk. destruct Hk as [item [<- _]]. apply Hkey.
Qed.

(** X5: for a view in which no make is the name of a member of
    [Object.prototype]: no make occurs twice in the top-N sequence; a make
    that is not in the sequence has at most as many records as any make
    that is; and the counts of the sequence add up to at most the number of
    rows. *)
Theorem topN_dominates :
  forall (n : nat) (view : list Data),
    (forall item, In item view -> ordinary (make_key item)) ->
    NoDup (map fst (topN n view)) /\
    (forall name value other,
        In (name, value) (topN n view) ->
        ~ In other (map fst (topN n view)) ->
        exists c, value = Count c /\ bucket_size make_key view other <= c) /\
    total (topN n view) <= List.length view.
Proof.
  intros n view Hview.
  pose proof (make_keys_Forall ordinary view Hview) as Hl.
  rewrite topN_unfold.
  set (o := fold_left bump (map make_key view) (Obj.empty string tally)).
  destruct (fold_bump_spec (map make_key view)) as [ND _]. fold o in ND.
  assert (Hcounts : Forall (fun e : string * tally => exists c, snd e = Count c) o).
  { apply values_fold_bump_counts.
    apply Forall_impl with (P := ordinary); [apply ordinary_no_method | exact Hl]. }
  split; [| split].
  - rewrite <- firstn_map. apply NoDup_firstn.
    apply Permutation_NoDup with (l := Obj.keys o); [| exact ND].
    symmetry. apply Permutation_map, Permutation_sort.
  - intros name value other Hin Hout.
    assert (Hv : exists c, value = Count c).
    { apply In_firstn in Hin. apply In_sort in Hin.
      exact (proj1 (Forall_forall _ _) Hcounts _ Hin). }
    destruct Hv as [c ->]. exists c. split; [reflexivity |].
    destruct (Nat.eq_dec (bucket_size make_key view other) 0) as [E | E];
      [lia |].
    assert (Ho : In (other, Count (bucket_size make_key view other))
                    (sort by_count_desc o)).
    { apply In_sort. unfold bucket_size in *.
      apply In_fold_bump_ordinary; [| split; [reflexivity | lia]].
      apply (proj1 (Forall_forall _ _) Hl).
      apply (count_occ_In string_dec). lia. }
    rewrite <- (firstn_skipn n (sort by_count_desc o)) in Ho.
    apply in_app_or in Ho. destruct Ho as [Ho | Ho].
    + elim Hout.
      change other
        with (fst (other, Count (bucket_size make_key view other))).
      now apply in_map.
    + pose proof (sorted_entries_descending o Hcounts) as Hs.
      unfold descending in Hs.
      rewrite <- (firstn_skipn n (sort by_count_desc o)) in Hs.
      exact (StronglySorted_app_inv _ _ _ Hs _ _ Hin Ho).
  - unfold total. rewrite <- firstn_map.
    etransitivity; [apply list_sum_firstn_le |].
    rewrite (list_sum_Permutation _ _
               (Permutation_map (fun e => count_of (snd e))
                  (Permutation_sort by_count_desc o))).
    pose proof (total_fold_bump _ Hl) as T. fold o in T.
    unfold total in T. rewrite T, length_map. lia.
Qed.

(** X5, at an instance: two TESLA rows and a FORD row, cut at one. *)
Lemma topN_dominates_witness :
  let view := [row (Val "TESLA"%string) Null Null Null;
               row (Val "FORD"%string) Null Null Null;
               row (Val "TESLA"%string) Null Null Null] in
  NoDup (map fst (topN 1 view)) /\
  (forall name value other,
      In (name, value) (topN 1 view) ->
      ~ In other (map fst (topN 1 view)) ->
      exists c, value = Count c /\ bucket_size make_key view other <= c) /\
  total (topN 1 view) <= List.length view.
Proof.
  intros view. apply (topN_dominates 1 view).
  intros item H. simpl in H.
  destruct H as [<- | [<- | [<- | []]]]; reflexivity.
Defined.

(** X6: for a view in which no make is the name of a member of
    [Object.prototype] and which has at most [n] distinct makes, the top-N
    sequence holds every bucket of the make distribution (it is a
    rearrangement of its entries) and its counts add up to the number of
    rows. *)
Theorem topN_covers_small_views :
  forall (n : nat) (view : list Data),
    (forall item, In item view -> ordinary (make_key item)) ->
    bucket_count make_key view <= n ->
    Permutation (topN n view) (Obj.entries (makeDistribution view)) /\
    total (topN n view) = List.length view.
Proof.
  intros n view Hview Hn.
  pose proof (make_keys_Forall ordinary view Hview) as Hl.
  rewrite topN_unfold.
  unfold Obj.entries, makeDistribution. rewrite fold_bump_map.
  set (o := fold_left bump (map make_key view) (Obj.empty string tally)).
  pose proof (total_fold_bump _ Hl) as T. fold o in T.
  rewrite firstn_all2.
  - split; [apply Permutation_sort |].
    unfold total in *.
    rewrite (list_sum_Permutation _ _
               (Permutation_map (fun e => count_of (snd e))
                  (Permutation_sort by_count_desc o))).
    rewrite T. apply length_map.
  - rewrite length_sort. unfold o. rewrite (length_fold_bump _ Hl). exact Hn.
Qed.

(** X6, at an instance: two makes, cut at five. *)
Lemma topN_covers_small_views_witness :
  let view := [row (Val "TESLA"%string) Null Null Null;
               row (Val "FORD"%string) Null Null Null;
               row (Val "TESLA"%string) Null Null Null] in
  Permutation (topN 5 view) (Obj.entries (makeDistribution view)) /\
  total (topN 5 view) = List.length view.
Proof.
  intros view. apply (topN_covers_small_views 5 view).
  - intros item H. simpl in H.
    destruct H as [<- | [<- | [<- | []]]]; reflexivity.
  - vm_compute. lia.
Defined.

(** X7: no bucket of the type chart or of the make chart has the empty
    string as its name: a record with an empty or missing value is counted
    under "Unknown". *)
Theorem bucket_names_nonempty :
  forall (n : nat) (view : list Data),
    Forall (fun e => fst e <> EmptyString) (vehicleTypesData view) /\
    Forall (fun e => fst e <> EmptyString) (topN n view) /\
    Forall (fun e => fst e <> EmptyString) (makeDistributionData view).
Proof.
  assert (Hmake : forall n view,
             Forall (fun e : string * tally => fst e <> EmptyString)
                    (topN n view)).
  { intros n view. rewrite topN_unfold. apply Forall_forall.
    intros e He. apply In_firstn in He. apply In_sort in He.
    revert e He. apply Forall_forall. apply fold_bump_names.
    intros item. now apply or_string_nonempty. }
  intros n view. split; [| split].
  - unfold vehicleTypesData, vehicleTypes, Obj.entries.
    rewrite map_pair_id, fold_bump_map. apply fold_bump_names.
    intros item. now apply or_string_nonempty.
  - apply Hmake.
  - apply Hmake.
Qed.

End DistributionLaws.

(* ================================================================= *)
(** ** Further properties of the average range *)

Section AverageLaws.






End AverageLaws.

(* ================================================================= *)
(** ** Further properties of the average range by model year *)

Section NumberOrder.

Lemma number_le_trans (a b c : number) :
  number_le a b -> number_le b c -> number_le a c.
Proof.
  destruct a, b, c; simpl; try tauto. apply Qcle_trans.
Qed.

Lemma positive_sub_Fin (x y : Qc) :
  positive (sub (Fin x) (Fin y)) = true <-> (y < x)%Qc.
Proof.
  unfold sub. cbn [neg add positive]. rewrite Qc_ltb_lt.
  symmetry. apply Qclt_minus_iff.
Qed.

Lemma sub_not_positive_le (a b : number) :
  a <> NaN -> b <> NaN -> positive (sub a b) = false -> number_le a b.
Proof.
  destruct a as [| | | x], b as [| | | y]; simpl; try tauto;
    try discriminate; intros _ _ H.
  apply Qcnot_lt_le. intros Hlt.
  apply positive_sub_Fin in Hlt. unfold sub in Hlt. simpl in Hlt. congruence.
Qed.

Lemma sub_positive_ge (a b : number) :
  a <> NaN -> b <> NaN -> positive (sub a b) = true -> number_le b a.
Proof.
  destruct a as [| | | x], b as [| | | y]; simpl; try tauto;
    try discriminate; intros _ _ H.
  apply Qclt_le_weak. apply positive_sub_Fin. exact H.
Qed.

Lemma isNaN_to_number (c : cell number) :
  isNaN c = false -> to_number c <> NaN.
Proof.
  destruct c as [| | [| | | q]]; simpl; discriminate.
Qed.

End NumberOrder.

Section YearlyLaws.

Local Abbreviation yget := (Obj.get Obj.cell_key_eqb).
Local Abbreviation yset := (Obj.set Obj.cell_key_eqb Obj.cell_index).

Lemma cell_key_eqb_refl (y : cell number) : Obj.cell_key_eqb y y = true.
Proof. now apply number_cell_iff. Qed.

Lemma qualifies_true (item : Data) :
  qualifies item = true ->
  isNaN (ModelYear item) = false /\ isNaN (ElectricRange item) = false.
Proof.
  unfold qualifies. intros H. apply andb_true_iff in H.
  destruct H as [H1 H2]. now apply negb_true_iff in H1, H2.
Qed.

Lemma qualifies_false (item : Data) :
  qualifies item = false ->
  isNaN (ModelYear item) = true \/ isNaN (ElectricRange item) = true.
Proof.
  unfold qualifies. intros H. apply andb_false_iff in H.
  destruct H as [H | H]; apply negb_false_iff in H; auto.
Qed.

Lemma rangeByYear_step_other (acc : year_accs) (item : Data)
    (y : cell number) :
  Obj.cell_key_eqb y (ModelYear item) = false ->
  yget (rangeByYear_step acc item) y = yget acc y.
Proof.
  intros Hy. unfold rangeByYear_step.
  destruct (negb (isNaN (ModelYear item)) && negb (isNaN (ElectricRange item)));
    [| reflexivity].
  destruct (yget acc (ModelYear item)) as [e |] eqn:G.
  - rewrite G.
    now rewrite (get_set Obj.cell_key_eqb Obj.cell_index number_cell_iff), Hy.
  - rewrite (get_set Obj.cell_key_eqb Obj.cell_index number_cell_iff acc),
      cell_key_eqb_refl.
    rewrite !(get_set Obj.cell_key_eqb Obj.cell_index number_cell_iff), Hy.
    reflexivity.
Qed.

Lemma NoDup_keys_step (acc : year_accs) (item : Data) :
  NoDup (Obj.keys acc) -> NoDup (Obj.keys (rangeByYear_step acc item)).
Proof.
  intros ND. unfold rangeByYear_step.
  destruct (negb (isNaN (ModelYear item)) && negb (isNaN (ElectricRange item)));
    [| exact ND].
  destruct (yget acc (ModelYear item)) as [e |] eqn:G.
  - rewrite G. now apply NoDup_keys_set; [apply number_cell_iff |].
  - rewrite (get_set Obj.cell_key_eqb Obj.cell_index number_cell_iff acc),
      cell_key_eqb_refl.
    apply NoDup_keys_set; [apply number_cell_iff |].
    now apply NoDup_keys_set; [apply number_cell_iff |].
Qed.

Lemma year_rows_snoc (y : cell number) (l : list Data) (item : Data) :
  year_rows y (l ++ [item]) =
  year_rows y l ++
  (if qualifies item && Obj.cell_key_eqb (ModelYear item) y then [item]
   else []).
Proof.
  unfold year_rows. now rewrite filter_app.
Qed.

(** What the loop of [rangeByYear] has built after the rows [l]. *)
Lemma rangeByYear_spec (l : list Data) :
  NoDup (Obj.keys (rangeByYear l)) /\
  (forall y,
      yget (rangeByYear l) y =
      if List.length (year_rows y l) =? 0 then None
      else Some (mkYearAcc y (year_sum y l) (List.length (year_rows y l)))).
Proof.
  induction l as [| item l [ND G]] using rev_ind.
  - split; [constructor | reflexivity].
  - unfold rangeByYear in *. rewrite fold_left_app. cbn [fold_left].
    split; [now apply NoDup_keys_step |]. intros y.
    unfold year_sum. rewrite year_rows_snoc.
    destruct (qualifies item) eqn:Q; cbn [andb].
    + destruct (qualifies_true item Q) as [Hy Hr].
      destruct (Obj.cell_key_eqb (ModelYear item) y) eqn:E.
      * apply number_cell_iff in E. subst y.
        rewrite (rangeByYear_step_counts _ item Hy Hr), G.
        rewrite length_app, map_app, fold_left_app. cbn [List.length map fold_left].
        replace (List.length (year_rows (ModelYear item) l) + 1 =? 0)
          with false by (symmetry; apply Nat.eqb_neq; lia).
        destruct (List.length (year_rows (ModelYear item) l)) eqn:L.
        -- apply length_zero_iff_nil in L. rewrite L. reflexivity.
        -- unfold year_sum. reflexivity.
      * rewrite app_nil_r. rewrite rangeByYear_step_other; [apply G |].
        destruct (Obj.cell_key_eqb y (ModelYear item)) eqn:E';
          [| reflexivity].
        apply number_cell_iff in E'. subst y.
        now rewrite cell_key_eqb_refl in E.
    + rewrite app_nil_r.
      rewrite (rangeByYear_step_skip _ item (qualifies_false item Q)).
      apply G.
Qed.

Lemma year_rows_nonempty (y : cell number) (view : list Data) :
  year_rows y view <> [] ->
  exists item, In item view /\ qualifies item = true /\ ModelYear item = y.
Proof.
  intros H. destruct (year_rows y view) as [| item rest] eqn:E;
    [now elim H |].
  assert (Hin : In item (year_rows y view)) by (rewrite E; now left).
  unfold year_rows in Hin. apply filter_In in Hin.
  destruct Hin as [Hin Hq]. apply andb_true_iff in Hq.
  destruct Hq as [Hq He]. apply number_cell_iff in He. now exists item.
Qed.

Lemma rangeByYear_entry (view : list Data) (k : cell number) (e : YearAcc) :
  In (k, e) (rangeByYear view) <->
  year_rows k view <> [] /\
  e = mkYearAcc k (year_sum k view) (List.length (year_rows k view)).
Proof.
  destruct (rangeByYear_spec view) as [ND G]. specialize (G k). split.
  - intros H. apply (In_get Obj.cell_key_eqb number_cell_iff _ _ _ ND) in H.
    rewrite G in H.
    destruct (Nat.eqb_spec (List.length (year_rows k view)) 0) as [L | L];
      [discriminate |].
    injection H as <-. split; [| reflexivity].
    intros E. rewrite E in L. now elim L.
  - intros [Hne ->]. apply (get_Some_In Obj.cell_key_eqb number_cell_iff).
    rewrite G.
    destruct (Nat.eqb_spec (List.length (year_rows k view)) 0) as [L | L];
      [| reflexivity].
    apply length_zero_iff_nil in L. contradiction.
Qed.

(** X9: the yearly series has a point for a year cell exactly when some
    record with that model year passes both [isNaN] tests, and the point's
    average is the sum of the ranges of those records, read as numbers (an
    empty cell as 0), divided by their number. *)
Theorem rangeByYearData_spec :
  forall (view : list Data) (p : YearPoint),
    In p (rangeByYearData view) <->
    year_rows (year p) view <> [] /\
    pt_averageRange p =
      div (year_sum (year p) view)
          (of_nat (List.length (year_rows (year p) view))).
Proof.
  intros view p. unfold rangeByYearData, Obj.values.
  rewrite In_sort, in_map_iff. split.
  - intros [e [<- He]]. apply in_map_iff in He.
    destruct He as [[k e'] [<- Hin]]. apply rangeByYear_entry in Hin.
    destruct Hin as [Hne ->]. simpl. now split.
  - intros [Hne Hp].
    exists (mkYearAcc (year p) (year_sum (year p) view)
                      (List.length (year_rows (year p) view))).
    split.
    + destruct p as [y a]. simpl in *. now rewrite Hp.
    + apply in_map_iff.
      exists (year p, mkYearAcc (year p) (year_sum (year p) view)
                                (List.length (year_rows (year p) view))).
      split; [reflexivity |]. now apply rangeByYear_entry.
Qed.

Lemma rangeByYear_years (view : list Data) :
  map acc_year (Obj.values (rangeByYear view)) = Obj.keys (rangeByYear view).
Proof.
  unfold Obj.values, Obj.keys. rewrite map_map. apply map_ext_in.
  intros [k e] Hin. apply rangeByYear_entry in Hin.
  destruct Hin as [_ ->]. reflexivity.
Qed.

Lemma rangeByYear_key_in_view (view : list Data) (k : cell number) :
  In k (Obj.keys (rangeByYear view)) ->
  exists item, In item view /\ qualifies item = true /\ ModelYear item = k.
Proof.
  intros H. unfold Obj.keys in H. apply in_map_iff in H.
  destruct H as [[k' e] [<- Hin]]. apply rangeByYear_entry in Hin.
  destruct Hin as [Hne _]. now apply year_rows_nonempty.
Qed.

(** X10: the points of the yearly series come in ascending order of their
    years read as numbers (an empty year as 0), no year cell has two points,
    no point has NaN or [undefined] as its year, and there are at most as
    many points as rows. *)
Theorem rangeByYearData_sorted :
  forall view : list Data,
    StronglySorted
      (fun a b => number_le (to_number (year a)) (to_number (year b)))
      (rangeByYearData view) /\
    NoDup (map year (rangeByYearData view)) /\
    Forall (fun p => isNaN (year p) = false) (rangeByYearData view) /\
    List.length (rangeByYearData view) <= List.length view.
Proof.
  intros view.
  set (pts := map (fun e => mkYearPoint (acc_year e)
                              (div (acc_averageRange e) (of_nat (acc_count e))))
                  (Obj.values (rangeByYear view))).
  assert (Hyears : map year pts = Obj.keys (rangeByYear view)).
  { unfold pts. rewrite map_map. cbn [year]. apply rangeByYear_years. }
  assert (HP : Forall (fun p => isNaN (year p) = false) pts).
  { apply Forall_forall. intros p Hp.
    assert (Hk : In (year p) (map year pts)) by now apply in_map.
    rewrite Hyears in Hk. apply rangeByYear_key_in_view in Hk.
    destruct Hk as [item [_ [Hq <-]]]. now apply qualifies_true in Hq. }
  destruct (rangeByYear_spec view) as [ND _].
  change (rangeByYearData view) with (sort by_year_asc pts).
  split; [| split; [| split]].
  - apply sorted_sort_on with (P := fun p => isNaN (year p) = false).
    + intros x y z. apply number_le_trans.
    + intros x y Px Py. unfold by_year_asc.
      apply sub_not_positive_le; now apply isNaN_to_number.
    + intros x y Px Py. unfold by_year_asc.
      apply sub_positive_ge; now apply isNaN_to_number.
    + exact HP.
  - apply Permutation_NoDup with (l := Obj.keys (rangeByYear view));
      [| exact ND].
    rewrite <- Hyears. symmetry. apply Permutation_map, Permutation_sort.
  - apply Forall_forall. intros p Hp. apply In_sort in Hp.
    now apply (proj1 (Forall_forall _ _) HP).
  - rewrite length_sort, <- (length_map year pts), Hyears.
    rewrite <- (length_map ModelYear view).
    apply NoDup_incl_length; [exact ND |].
    intros k Hk. apply rangeByYear_key_in_view in Hk.
    destruct Hk as [item [Hin [_ <-]]]. now apply in_map.
Qed.

End YearlyLaws.

(* ================================================================= *)
(** ** Further properties of pagination *)

Section PageLaws.

Lemma firstn_add {A} (a b : nat) (l : list A) :
  firstn (a + b) l = firstn a l ++ firstn b (skipn a l).
Proof.
  revert l. induction a as [| a IH]; intros l; simpl; [reflexivity |].
  destruct l as [| x l]; simpl.
  - now rewrite firstn_nil.
  - now rewrite IH.
Qed.

Lemma concat_chunks {A} (s k : nat) (l : list A) :
  List.concat (map (fun i => firstn s (skipn (s * i) l)) (seq 0 k)) =
  firstn (s * k) l.
Proof.
  induction k as [| k IH].
  - rewrite Nat.mul_0_r. reflexivity.
  - rewrite seq_S, map_app, concat_app, IH. cbn [map List.concat plus].
    rewrite app_nil_r, <- firstn_add. f_equal. lia.
Qed.

Lemma paginatedData_chunk (view : list Data) (p : Z) :
  (1 <= p)%Z ->
  paginatedData view p = firstn 10 (skipn (10 * Z.to_nat (p - 1)) view).
Proof.
  intros Hp. unfold paginatedData, paginate, ITEMS_PER_PAGE.
  rewrite slice_nonneg by lia.
  set (len := List.length view).
  destruct (Z.le_gt_cases ((p - 1) * 10) (Z.of_nat len)) as [Ha | Ha].
  - replace (Z.to_nat (Z.min ((p - 1) * 10) (Z.of_nat len)))
      with (10 * Z.to_nat (p - 1)) by lia.
    destruct (Z.le_gt_cases (p * 10) (Z.of_nat len)) as [Hb | Hb].
    + f_equal. lia.
    + rewrite !firstn_all2; [reflexivity | |];
        rewrite length_skipn; fold len; lia.
  - rewrite (skipn_all2 (n := 10 * Z.to_nat (p - 1))) by (fold len; lia).
    rewrite (skipn_all2 (n := Z.to_nat (Z.min ((p - 1) * 10) (Z.of_nat len))))
      by (fold len; lia).
    now rewrite !firstn_nil.
Qed.

Lemma lastPage_nonneg (total : nat) : (0 <= lastPage total)%Z.
Proof.
  pose proof (lastPage_bounds total). lia.
Qed.

(** X11: the tables of the pages 1 to [lastPage], one after the other, are
    the view: every row is on exactly one page, in view order. *)
Theorem pages_partition_view :
  forall view : list Data, List.concat (pages view) = view.
Proof.
  intros view. unfold pages.
  rewrite <- seq_shift, map_map.
  rewrite (map_ext _ (fun i => firstn 10 (skipn (10 * i) view))).
  - rewrite concat_chunks. apply firstn_all2.
    pose proof (lastPage_bounds (List.length view)). lia.
  - intros i. rewrite paginatedData_chunk by lia.
    do 3 f_equal. lia.
Qed.

Lemma lastPage_mono (m n : nat) : m <= n -> (lastPage m <= lastPage n)%Z.
Proof.
  intros H. pose proof (lastPage_bounds m). pose proof (lastPage_bounds n).
  lia.
Qed.

(** X12: in every state the component can be in (the store loaded or not,
    any selections, any clicks on the enabled buttons, in any order), the
    page number is between 0 and the last page of the whole store (or 1, if
    the store has no page), and the store is empty until the rows arrive. *)
Theorem app_page_bounds :
  forall (b : bool) (st : ComponentState),
    app_reachable b st ->
    (0 <= currentPage st <= Z.max 1 (lastPage (List.length (data st))))%Z /\
    (b = false -> data st = []).
Proof.
  intros b st Hr.
  induction Hr as [| st rows _ [IHp IHd] | b st y _ [IHp IHd]
                   | b st m _ [IHp IHd] | b st _ [IHp IHd] Hen
                   | b st _ [IHp IHd] Hen]; cbn [currentPage data].
  - split; [cbn; lia | reflexivity].
  - split; [| discriminate].
    rewrite (IHd eq_refl) in IHp. cbn in IHp.
    pose proof (lastPage_nonneg (List.length rows)). lia.
  - now split.
  - now split.
  - split; [| exact IHd]. unfold previousPage. lia.
  - split; [| exact IHd]. unfold nextPage, totalVehicles, shown.
    pose proof (lastPage_nonneg
                  (List.length (filteredData (data st) (selectedYear st)
                                             (selectedMake st)))).
    assert (Hle : (lastPage (List.length (filteredData (data st)
                                (selectedYear st) (selectedMake st)))
                   <= lastPage (List.length (data st)))%Z).
    { apply lastPage_mono. unfold filteredData. apply length_filter_le. }
    lia.
Qed.

(** X12, at an instance: 23 rows loaded, then one click on Next. *)
Lemma app_page_bounds_witness :
  let rows := repeat (row Null Null Null Null) 23 in
  (0 <= 2 <= Z.max 1 (lastPage (List.length rows)))%Z /\
  (true = false -> rows = []).
Proof.
  intros rows.
  apply (app_page_bounds true (mkState rows 2 None None)).
  apply (app_next (st := mkState rows 1 None None)); [| reflexivity].
  apply (app_loaded (st := mkState [] 1 None None) rows). apply app_init.
Defined.

(** X13: for a page number between 1 and the last page of the view, the
    table shows between 1 and 10 rows; their number is what the caption says
    (last position - first position + 1), and the first row of the table is
    the record at the caption's first position. *)
Theorem page_in_range_shows_rows :
  forall (view : list Data) (p : Z),
    (1 <= p <= lastPage (List.length view))%Z ->
    let page := paginatedData view p in
    1 <= List.length page <= 10 /\
    Z.of_nat (List.length page) =
      (showingTo (List.length view) p - showingFrom p + 1)%Z /\
    nth_error page 0 = nth_error view (Z.to_nat (showingFrom p - 1)).
Proof.
  intros view p Hp page.
  pose proof (lastPage_bounds (List.length view)) as Hb.
  unfold page. rewrite paginatedData_chunk by lia.
  rewrite length_firstn, length_skipn.
  unfold showingTo, showingFrom, ITEMS_PER_PAGE.
  split; [lia |]. split; [lia |].
  rewrite nth_error_firstn. cbn [Nat.ltb Nat.leb].
  rewrite nth_error_skipn. f_equal. lia.
Qed.

(** X13, at an instance: page 3 of a view of 23 rows. *)
Lemma page_in_range_shows_rows_witness :
  let view := repeat (row Null Null Null Null) 23 in
  let page := paginatedData view 3 in
  1 <= List.length page <= 10 /\
  Z.of_nat (List.length page) =
    (showingTo (List.length view) 3 - showingFrom 3 + 1)%Z /\
  nth_error page 0 = nth_error view (Z.to_nat (showingFrom 3 - 1)).
Proof.
  apply (page_in_range_shows_rows (repeat (row Null Null Null Null) 23) 3).
  vm_compute. split; discriminate.
Defined.

(** X14: every page from 1 to the last page can be reached from page 1 by
    clicks on Next. *)
Theorem every_page_reachable :
  forall (total : nat) (p : Z),
    (1 <= p <= lastPage total)%Z -> reachable total p.
Proof.
  intros total p [Hlo Hhi].
  replace p with (1 + Z.of_nat (Z.to_nat (p - 1)))%Z by lia.
  assert (Hk : (1 + Z.of_nat (Z.to_nat (p - 1)) <= lastPage total)%Z) by lia.
  induction (Z.to_nat (p - 1)) as [| k IH].
  - apply reach_init.
  - apply reach_click with (p := (1 + Z.of_nat k)%Z); [apply IH; lia |].
    replace (1 + Z.of_nat (S k))%Z
      with (nextPage total (1 + Z.of_nat k)) by (unfold nextPage; lia).
    apply click_next. unfold nextDisabled. apply Z.eqb_neq. lia.
Qed.

(** X14, at an instance: page 3 of a view of 23 rows. *)
Lemma every_page_reachable_witness : reachable 23 3.
Proof.
  apply (every_page_reachable 23 3). vm_compute. split; discriminate.
Defined.

(** X15: the table is empty on page 0 and on every page after the last
    one (the page is kept when a new selection shortens the view). *)
Theorem page_out_of_range_is_empty :
  forall (view : list Data) (p : Z),
    p = 0%Z \/ (lastPage (List.length view) < p)%Z ->
    paginatedData view p = [].
Proof.
  intros view p [-> | Hp].
  - unfold paginatedData, paginate, slice, ITEMS_PER_PAGE. cbn [Z.ltb Z.mul
      Z.sub Z.add Z.opp Z.pos_sub Z.compare Pos.compare Pos.compare_cont].
    replace (Z.to_nat _) with 0 by lia. reflexivity.
  - pose proof (lastPage_bounds (List.length view)) as Hb.
    rewrite paginatedData_chunk by lia.
    rewrite skipn_all2 by lia. apply firstn_nil.
Qed.

(** X15, at an instance: page 4 of a view of 23 rows. *)
Lemma page_out_of_range_is_empty_witness :
  paginatedData (repeat (row Null Null Null Null) 23) 4 = [].
Proof.
  apply (page_out_of_range_is_empty (repeat (row Null Null Null Null) 23) 4).
  right. vm_compute. reflexivity.
Defined.

End PageLaws.

(* ================================================================= *)
(** ** Order of the bars of the type chart *)

Section TypeChartOrder.

(** X16: when no type name is an array-index string, the entries of the
    type distribution are in the order in which their types are first met
    in the view. *)
Theorem vehicleTypesData_first_seen :
  forall (view : list Data) (a b : string * tally)
         (l1 l2 l3 : list (string * tally)),
    (forall item, In item view -> Obj.string_index (type_key item) = None) ->
    vehicleTypesData view = l1 ++ a :: l2 ++ b :: l3 ->
    index_of (fst a) (map type_key view) < index_of (fst b) (map type_key view).
Proof.
  intros view a b l1 l2 l3 Hkeys Hout.
  pose proof (Before_decomp l1 l2 l3 a b) as Hb.
  rewrite <- Hout in Hb.
  unfold vehicleTypesData, vehicleTypes, Obj.entries in Hb.
  rewrite map_pair_id, fold_bump_map in Hb.
  apply (Before_map fst) in Hb.
  fold (Obj.keys (fold_left bump (map type_key view) (Obj.empty string tally)))
    in Hb.
  assert (Hidx : forall k,
             In k (Obj.keys (fold_left bump (map type_key view)
                               (Obj.empty string tally))) ->
             Obj.string_index k = None).
  { intros k Hk. apply keys_fold_bump_In in Hk. apply in_map_iff in Hk.
    destruct Hk as [item [<- Hin]]. now apply Hkeys. }
  pose proof (Before_In _ _ _ Hb) as [Ha Hb'].
  apply keys_fold_bump_first_seen; [now apply Hidx | now apply Hidx | exact Hb].
Qed.

(** X16, at an instance: a PHEV row between two BEV rows. *)
Lemma vehicleTypesData_first_seen_witness :
  let view := [row Null Null Null (Val "BEV"%string);
               row Null Null Null (Val "PHEV"%string);
               row Null Null Null (Val "BEV"%string)] in
  index_of "BEV" (map type_key view) < index_of "PHEV" (map type_key view).
Proof.
  intros view.
  apply (vehicleTypesData_first_seen view
           ("BEV"%string, Count 2) ("PHEV"%string, Count 1) [] [] []).
  - intros item H. simpl in H.
    destruct H as [<- | [<- | [<- | []]]]; reflexivity.
  - reflexivity.
Defined.

End TypeChartOrder.
